(** * Triangle classifier and its basis-path harness

    A shallow embedding of [triangle_program.py] and of [basis_path_runner.py]
    (loading the expected labels, comparing, reporting, the whole run), with
    the properties their specification states and further ones read off the
    code.

    Python's [float] is IEEE 754 binary64.  It is modelled by the Standard
    Library's [spec_float] with precision 53 and maximal exponent 1024, whose
    operations are executable and round to nearest, ties to even, as the
    interpreter's do.  The labels are the strings the program returns. *)

From Stdlib Require Import ZArith Floats.SpecFloat.
From stdpp Require Import gmap strings list sorting pretty.

Open Scope Z_scope.

(** ** Python floats *)

Module PyFloat.

Definition prec : Z := 53.
Definition emax : Z := 1024.

Definition float : Type := spec_float.

Definition nan : float := S754_nan.
Definition inf : float := S754_infinity false.

(** [float(n)] for an integer [n]: exact when [|n| < 2^53]. *)
Definition of_Z (n : Z) : float := binary_normalize prec emax n 0 false.

Definition zero : float := of_Z 0.

(** [x + y], [x - y], [x * y], [abs(x)]. *)
Definition fadd (x y : float) : float := SFadd prec emax x y.
Definition fsub (x y : float) : float := SFsub prec emax x y.
Definition fmul (x y : float) : float := SFmul prec emax x y.
Definition fabs (x : float) : float := SFabs x.

(** [x <= y], [x < y], [x == y]: all three are [False] when either side is
    NaN. *)
Definition fle (x y : float) : bool := SFleb x y.
Definition flt (x y : float) : bool := SFltb x y.
Definition feq (x y : float) : bool := SFeqb x y.

Definition is_nan (x : float) : bool :=
  match x with S754_nan => true | _ => false end.

(** The literal [1e-9]: the binary64 number nearest to 10^-9, which is
    [4835703278458517 * 2^-82]. *)
Definition eps : float := S754_finite false 4835703278458517 (-82).

End PyFloat.

Import PyFloat.

(** ** Exceptions *)

Inductive exn : Type :=
  | KeyError (key : string)
  | ValueError.

Inductive result (A : Type) : Type :=
  | Ok (a : A)
  | Raise (e : exn).

Arguments Ok {A} a.
Arguments Raise {A} e.

#[global] Instance result_ret : MRet result := fun _ a => Ok a.
#[global] Instance result_bind : MBind result := fun _ _ f r =>
  match r with
  | Ok a => f a
  | Raise e => Raise e
  end.

(** ** The builtins [any] and [sorted] *)

Definition any {A : Type} (p : A → bool) (l : list A) : bool := existsb p l.

(** [sorted] copies its argument to a list and runs [list.sort] on it.  For a
    list shorter than 64 elements CPython's [list.sort] does no merging: it
    finds the run that starts the list with [count_run], reverses it when it is
    strictly descending, and inserts each remaining element with [binarysort].
    The only comparison it makes is [<].  The functions below follow
    [listobject.c] of CPython 3.11; later versions look for the leading run in
    another way, which changes the outcome only where [<] is not a total
    order, that is for lists with a NaN. *)
Section ListSort.
Context {A : Type} (lt : A → A → bool).

(** Number of further elements that continue a strictly descending run whose
    last element is [prev]. *)
Fixpoint run_descending (prev : A) (l : list A) : nat :=
  match l with
  | x :: l' => if lt x prev then S (run_descending x l') else O
  | [] => O
  end.

(** Number of further elements that continue a non-descending run. *)
Fixpoint run_ascending (prev : A) (l : list A) : nat :=
  match l with
  | x :: l' => if lt x prev then O else S (run_ascending x l')
  | [] => O
  end.

(** Length of the leading run, and whether it is descending. *)
Definition count_run (l : list A) : nat * bool :=
  match l with
  | [] => (O, false)
  | [_] => (1%nat, false)
  | x0 :: x1 :: l' =>
      if lt x1 x0
      then (S (S (run_descending x1 l')), true)
      else (S (S (run_ascending x1 l')), false)
  end.

(** The search loop of [binarysort]: [lo] and [hi] close in on the place of
    [pivot] in the sorted slice; an element equal to [pivot] stays to its
    left. *)
Fixpoint bisect (fuel : nat) (pivot : A) (l : list A) (lo hi : nat) : nat :=
  match fuel with
  | O => lo
  | S fuel' =>
      let p := (lo + Nat.div2 (hi - lo))%nat in
      match l !! p with
      | Some v =>
          let '(lo', hi') := if lt pivot v then (lo, p) else (S p, hi) in
          if (lo' <? hi')%nat then bisect fuel' pivot l lo' hi' else lo'
      | None => lo
      end
  end.

Definition binary_insert (run : list A) (pivot : A) : list A :=
  let i := bisect (length run) pivot run O (length run) in
  take i run ++ pivot :: drop i run.

Definition list_sort (l : list A) : list A :=
  let '(n, descending) := count_run l in
  let run := if descending then reverse (take n l) else take n l in
  foldl binary_insert run (drop n l).

End ListSort.

Definition sorted (sides : list float) : list float := list_sort flt sides.

(** ** [triangle_program.py] *)

Definition INVALID_NONPOSITIVE : string := "INVALID_NONPOSITIVE".
Definition INVALID_TRIANGLE_INEQUALITY : string := "INVALID_TRIANGLE_INEQUALITY".
Definition EQUILATERAL : string := "EQUILATERAL".
Definition ISOSCELES : string := "ISOSCELES".
Definition RIGHT_SCALENE : string := "RIGHT_SCALENE".
Definition SCALENE : string := "SCALENE".

(** The unpacking [x, y, z = sorted(sides)] raises [ValueError] unless the list
    has three elements. *)
Definition classify_triangle (a b c : float) : result string :=
  let sides := [a; b; c] in
  if any (λ x, fle x zero) sides then Ok INVALID_NONPOSITIVE else
  match sorted sides with
  | [x; y; z] =>
      if fle (fadd x y) z then Ok INVALID_TRIANGLE_INEQUALITY else
      if feq a b && feq b c then Ok EQUILATERAL else
      let is_iso := feq a b || feq b c || feq a c in
      let is_right :=
        flt (fabs (fsub (fadd (fmul x x) (fmul y y)) (fmul z z))) eps in
      if is_iso then Ok ISOSCELES else
      if is_right then Ok RIGHT_SCALENE else
      Ok SCALENE
  | _ => Raise ValueError
  end.

(** A row of the input table is a [dict[str, str]]; [row[key]] raises
    [KeyError] when the key is absent. *)
Definition getitem (row : gmap string string) (key : string) : result string :=
  match row !! key with
  | Some v => Ok v
  | None => Raise (KeyError key)
  end.

Section Batch.
(** The builtin [float] applied to a string: [None] stands for the
    [ValueError] it raises on text that is no number. *)
Variable float_of_str : string → option float.

Definition to_float (s : string) : result float :=
  match float_of_str s with
  | Some x => Ok x
  | None => Raise ValueError
  end.

(** The loop of [classify_batch], with the list [results] it appends to
    passed along. *)
Fixpoint classify_rows (rows : list (gmap string string))
    (results : list (string * string)) : result (list (string * string)) :=
  match rows with
  | [] => Ok results
  | row :: rows' =>
      case_id ← getitem row "case_id";
      a ← getitem row "a" ≫= to_float;
      b ← getitem row "b" ≫= to_float;
      c ← getitem row "c" ≫= to_float;
      label ← classify_triangle a b c;
      classify_rows rows' (results ++ [(case_id, label)])
  end.

Definition classify_batch (rows : list (gmap string string))
    : result (list (string * string)) :=
  classify_rows rows [].

End Batch.

(** ** [basis_path_runner.py] *)

Definition MISSING : string := "<missing>".

(** The line [f"{case_id}: expected {exp}, got {actual}"]. *)
Definition mismatch_line (case_id exp actual : string) : string :=
  case_id +:+ ": expected " +:+ exp +:+ ", got " +:+ actual.

(** One turn of the loop of [compare]. *)
Definition compare_step (expected : gmap string string)
    (mismatches : list string) (r : string * string) : list string :=
  let '(case_id, actual) := r in
  let exp := default MISSING (expected !! case_id) in
  if bool_decide (actual ≠ exp)
  then mismatches ++ [mismatch_line case_id exp actual]
  else mismatches.

Definition compare (results : list (string * string))
    (expected : gmap string string) : nat * list string :=
  let mismatches := foldl (compare_step expected) [] results in
  (length mismatches, mismatches).

(** The loop of [load_expected] over the rows [csv.DictReader] yields from
    the table of expected labels, with the dictionary [expected] it fills
    passed along.  Each row is a [dict[str, str]] with one entry per column,
    as the reader builds it from a line that has as many fields as the
    header.  In [expected[row["case_id"]] = row["expected"]] the right-hand
    side is evaluated first. *)
Fixpoint load_expected_rows (rows : list (gmap string string))
    (expected : gmap string string) : result (gmap string string) :=
  match rows with
  | [] => Ok expected
  | row :: rows' =>
      exp ← getitem row "expected";
      case_id ← getitem row "case_id";
      load_expected_rows rows' (<[case_id := exp]> expected)
  end.

Definition load_expected (rows : list (gmap string string))
    : result (gmap string string) :=
  load_expected_rows rows ∅.

(** The rows [write_actual] hands to the CSV writer: the header, then one row
    per result. *)
Definition write_actual (results : list (string * string))
    : list (list string) :=
  ["case_id"; "actual"] :: ((λ r, [r.1; r.2]) <$> results).

(** The newline ["\n"]. *)
Definition NL : string := String (Ascii.ascii_of_nat 10) "".

(** The strings [write_report] writes to the report, one per call of
    [f.write]; [str] of a length is its decimal numeral. *)
Definition write_report (total failures : nat) (mismatches : list string)
    : list string :=
  ["Total cases: " +:+ pretty total +:+ NL;
   "Failures: " +:+ pretty failures +:+ NL] ++
  match mismatches with
  | [] => []
  | _ => (NL +:+ "Mismatch details:" +:+ NL)
         :: ((λ line, "- " +:+ line +:+ NL) <$> mismatches)
  end.

(** What a run of [main] leaves behind: the rows of the file of actual
    labels, the pieces of the report, and the lines printed. *)
Record outcome : Type := Outcome {
  actual_rows : list (list string);
  report : list string;
  printed : list string
}.

(** [main], from the rows [csv.DictReader] yields for the two tables it
    reads; the file system is taken to grant every read and write.  The table
    of expected labels is loaded before the batch is classified, and nothing
    is written or printed before both have returned. *)
Definition main (float_of_str : string → option float)
    (rows expected_rows : list (gmap string string)) : result outcome :=
  expected ← load_expected expected_rows;
  results ← classify_batch float_of_str rows;
  let '(failures, mismatches) := compare results expected in
  mret {|
    actual_rows := write_actual results;
    report := write_report (length results) failures mismatches;
    printed :=
      ("Ran " +:+ pretty (length results) +:+ " test cases; failures: "
         +:+ pretty failures)
      :: match mismatches with
         | [] => ["All basis paths passed."]
         | _ => "Mismatches:" :: ((λ line, "  " +:+ line) <$> mismatches)
         end
  |}.

(** ** The specification's vocabulary *)

(** The closed set of labels, and the string the program returns for each. *)
Inductive Label : Type :=
  | InvalidNonpositive
  | InvalidTriangleInequality
  | Equilateral
  | Isosceles
  | RightScalene
  | Scalene.

Definition label_str (l : Label) : string :=
  match l with
  | InvalidNonpositive => INVALID_NONPOSITIVE
  | InvalidTriangleInequality => INVALID_TRIANGLE_INEQUALITY
  | Equilateral => EQUILATERAL
  | Isosceles => ISOSCELES
  | RightScalene => RIGHT_SCALENE
  | Scalene => SCALENE
  end.

(** A side is positive when [0 < x] holds; NaN is not. *)
Definition positive (x : float) : Prop := flt zero x = true.

(** [x ≤ y ≤ z] are the sorted sides of [(a, b, c)]. *)
Definition sorted_sides (a b c x y z : float) : Prop :=
  [x; y; z] ≡ₚ [a; b; c] ∧ fle x y = true ∧ fle y z = true.

(** The three tests of steps 3 to 5 of the decision sequence. *)
Definition all_equal (a b c : float) : bool := feq a b && feq b c.
Definition two_equal (a b c : float) : bool := feq a b || feq b c || feq a c.
Definition pythagorean (x y z : float) : bool :=
  flt (fabs (fsub (fadd (fmul x x) (fmul y y)) (fmul z z))) eps.

(** The six steps of the decision sequence, in the specification's order and
    with its words; [x], [y], [z] stand for the sorted sides. *)
Definition decision_sequence (a b c x y z : float) : Label :=
  if fle a zero || fle b zero || fle c zero then InvalidNonpositive
  else if fle (fadd x y) z then InvalidTriangleInequality
  else if all_equal a b c then Equilateral
  else if two_equal a b c then Isosceles
  else if pythagorean x y z then RightScalene
  else Scalene.



(** [≤] restricted to positive floats, on which it is a total order. *)
Definition ple (x y : float) : Prop := positive x ∧ positive y ∧ fle x y = true.

(** The sides a row of the input table holds, as [classify_batch] reads
    them. *)
Definition row_sides (float_of_str : string → option float)
    (row : gmap string string) : result (float * float * float) :=
  a ← getitem row "a" ≫= to_float float_of_str;
  b ← getitem row "b" ≫= to_float float_of_str;
  c ← getitem row "c" ≫= to_float float_of_str;
  mret (a, b, c).

(** The pair [classify_batch] appends for a row: the row's identifier and
    the label of its sides. *)
Definition row_labelled (float_of_str : string → option float)
    (row : gmap string string) (r : string * string) : Prop :=
  ∃ a b c,
    getitem row "case_id" = Ok r.1 ∧
    row_sides float_of_str row = Ok (a, b, c) ∧
    classify_triangle a b c = Ok r.2.

(** What [classify_batch] does with one row: the pair it appends, or the
    exception the row makes it raise. *)
Definition row_entry (float_of_str : string → option float)
    (row : gmap string string) : result (string * string) :=
  case_id ← getitem row "case_id";
  a ← getitem row "a" ≫= to_float float_of_str;
  b ← getitem row "b" ≫= to_float float_of_str;
  c ← getitem row "c" ≫= to_float float_of_str;
  label ← classify_triangle a b c;
  mret (case_id, label).

(** A result agrees with the table: its label is what [expected.get] returns
    for its identifier. *)
Definition agrees (expected : gmap string string) (r : string * string)
    : Prop :=
  r.2 = default MISSING (expected !! r.1).

#[global] Instance agrees_dec expected r : Decision (agrees expected r).
Proof. unfold agrees. apply _. Defined.

(** The line [compare] records for a result that disagrees. *)
Definition line_of (expected : gmap string string) (r : string * string)
    : string :=
  mismatch_line r.1 (default MISSING (expected !! r.1)) r.2.

(** The row of the table of expected labels that states a result. *)
Definition expected_row (r : string * string) : gmap string string :=
  {[ "case_id" := r.1; "expected" := r.2 ]}.

(** A finite float in the form binary64 stores it. *)
Definition finite_valid (x : float) : Prop :=
  (∃ m e, x = S754_finite false m e) ∧ valid_binary prec emax x = true.

(** ** Sample inputs *)

(** A reader of decimal digits, enough to run a batch: [float] applied to the
    text of a small whole number. *)
Definition float_of_digits (s : string) : option float :=
  if bool_decide (s = "2") then Some (of_Z 2)
  else if bool_decide (s = "3") then Some (of_Z 3)
  else if bool_decide (s = "4") then Some (of_Z 4)
  else if bool_decide (s = "5") then Some (of_Z 5)
  else None.

Definition row_345 (case_id : string) : gmap string string :=
  {[ "case_id" := case_id; "a" := "3"; "b" := "4"; "c" := "5" ]}.
Definition row_234 (case_id : string) : gmap string string :=
  {[ "case_id" := case_id; "a" := "2"; "b" := "3"; "c" := "4" ]}.

(** [math.sqrt(2.0)], the leg of an isosceles right triangle of
    hypotenuse 2. *)
Definition sqrt2 : float := Eval vm_compute in SFsqrt prec emax (of_Z 2).

(** [2.0 ** -60], less than half the gap between 1 and the next float. *)
Definition tiny : float := S754_finite false 4503599627370496 (-112).


(** * Properties *)

(** ** Comparisons of floats *)

Section FloatOrder.
Implicit Types x y z : float.

(** [eps] is [1 / 10^9] correctly rounded, and lies within half a unit in
    the last place, [2^-83], of [10^-9]. *)
Lemma eps_is_1e_9 :
  SFdiv prec emax (of_Z 1) (of_Z (10 ^ 9)) = eps ∧
  eps = S754_finite false 4835703278458517 (-82) ∧
  2 * Z.abs (4835703278458517 * 10 ^ 9 - 2 ^ 82) < 10 ^ 9.
Proof. repeat split. Qed.

Lemma is_nan_true x : is_nan x = true ↔ x = nan.
Proof. by destruct x. Qed.

Lemma SFcompare_antisym x y : SFcompare y x = CompOpp <$> SFcompare x y.
Proof.
  destruct x as [[]|[]| |[] m e], y as [[]|[]| |[] m' e']; simpl;
    try reflexivity.
  all: rewrite (Z.compare_antisym e e');
    replace (Pos.compare_cont Eq m' m)
      with (CompOpp (Pos.compare_cont Eq m m'))
      by apply (Pos.compare_cont_antisym m m' Eq).
  all: destruct (e ?= e'); simpl; try reflexivity.
  all: destruct (Pos.compare_cont Eq m m'); reflexivity.
Qed.

Lemma SFcompare_None x y :
  SFcompare x y = None ↔ is_nan x = true ∨ is_nan y = true.
Proof.
  destruct x as [[]|[]| |[] m e], y as [[]|[]| |[] m' e']; simpl;
    split; intros H; try discriminate; auto; destruct H; discriminate.
Qed.

Lemma flt_false_fle x y :
  is_nan x = false → is_nan y = false → flt x y = false → fle y x = true.
Proof.
  intros Hx Hy. unfold flt, fle, SFltb, SFleb.
  rewrite (SFcompare_antisym x y).
  destruct (SFcompare x y) as [[]|] eqn:E; simpl; try done.
  apply SFcompare_None in E as [E|E]; congruence.
Qed.

Lemma flt_fle x y : flt x y = true → fle x y = true.
Proof. unfold flt, fle, SFltb, SFleb. by destruct (SFcompare x y) as [[]|]. Qed.

Lemma flt_not_fle x y : flt x y = true → fle y x = false.
Proof.
  unfold flt, fle, SFltb, SFleb. rewrite (SFcompare_antisym x y).
  by destruct (SFcompare x y) as [[]|].
Qed.

Lemma feq_sym x y : feq x y = feq y x.
Proof.
  unfold feq, SFeqb. rewrite (SFcompare_antisym y x).
  by destruct (SFcompare y x) as [[]|].
Qed.

Lemma fle_nan_l x : fle nan x = false.
Proof. done. Qed.

Lemma fle_nan_r x : fle x nan = false.
Proof. by destruct x. Qed.

Lemma feq_nan_l x : feq nan x = false.
Proof. done. Qed.

Lemma feq_nan_r x : feq x nan = false.
Proof. by destruct x. Qed.

Lemma flt_nan_l x : flt nan x = false.
Proof. done. Qed.

(** NaN is absorbing for the arithmetic. *)
Lemma fadd_nan_l x : fadd nan x = nan.
Proof. done. Qed.

Lemma fadd_nan_r x : fadd x nan = nan.
Proof. by destruct x. Qed.

Lemma fsub_nan_l x : fsub nan x = nan.
Proof. done. Qed.

Lemma fsub_nan_r x : fsub x nan = nan.
Proof. by destruct x. Qed.

Lemma fmul_nan : fmul nan nan = nan.
Proof. done. Qed.

(** Positive floats: [+inf] and the finite ones with a clear sign bit. *)
Lemma positive_inv x :
  positive x ↔ x = inf ∨ ∃ m e, x = S754_finite false m e.
Proof.
  unfold positive. split.
  - destruct x as [[]|[]| |[] m e]; try discriminate; eauto.
  - intros [->|(m & e & ->)]; reflexivity.
Qed.

Lemma positive_not_nan x : positive x → is_nan x = false.
Proof. intros [->|(m & e & ->)]%positive_inv; done. Qed.

Lemma positive_not_fle_zero x : positive x → fle x zero = false.
Proof. intros [->|(m & e & ->)]%positive_inv; done. Qed.

Lemma not_fle_zero x : fle x zero = false → is_nan x = true ∨ positive x.
Proof.
  destruct x as [[]|[]| |[] m e]; try discriminate; intros _;
    (by left) || (by right).
Qed.

Lemma fle_finite m e m' e' :
  fle (S754_finite false m e) (S754_finite false m' e') = true ↔
  e < e' ∨ e = e' ∧ (m ≤ m')%positive.
Proof.
  unfold fle, SFleb; simpl.
  destruct (Z.compare_spec e e') as [->| |].
  - change (Pos.compare_cont Eq m m') with (m ?= m')%positive.
    destruct (Pos.compare_spec m m'); split; intros;
      try discriminate; try lia; auto.
  - split; auto.
  - split; [discriminate|lia].
Qed.

Lemma feq_positive x y : positive x → (feq x y = true ↔ x = y).
Proof.
  intros [->|(m & e & ->)]%positive_inv.
  - destruct y as [[]|[]| |[] m' e']; split; try discriminate; done.
  - destruct y as [[]|[]| |[] m' e']; split; try discriminate.
    + unfold feq, SFeqb; simpl.
      destruct (Z.compare_spec e e') as [->| |]; try discriminate.
      change (Pos.compare_cont Eq m m') with (m ?= m')%positive.
      destruct (Pos.compare_spec m m') as [->| |]; done.
    + intros [= <- <-]. unfold feq, SFeqb; simpl.
      rewrite Z.compare_refl.
      change (Pos.compare_cont Eq m m) with (m ?= m)%positive.
      by rewrite Pos.compare_refl.
Qed.

#[global] Instance ple_trans : Transitive ple.
Proof.
  intros x y z (Hx & Hy & Hxy) (_ & Hz & Hyz). repeat split; try done.
  apply positive_inv in Hx as [->|(mx & ex & ->)];
  apply positive_inv in Hy as [->|(my & ey & ->)];
  apply positive_inv in Hz as [->|(mz & ez & ->)]; try done.
  apply fle_finite in Hxy, Hyz. apply fle_finite. lia.
Qed.

#[global] Instance ple_antisym : AntiSymm (=) ple.
Proof.
  intros x y (Hx & Hy & Hxy) (_ & _ & Hyx).
  apply positive_inv in Hx as [->|(mx & ex & ->)];
  apply positive_inv in Hy as [->|(my & ey & ->)]; try done.
  apply fle_finite in Hxy, Hyx.
  assert (ex = ey ∧ mx = my) as [-> ->] by lia. done.
Qed.


End FloatOrder.

(** ** [sorted] on three elements *)

Section SortThree.
Context {A : Type} (lt : A → A → bool).

(** What [list.sort] does to a list of three, comparison by comparison. *)
Lemma list_sort_3 p q r :
  list_sort lt [p; q; r] =
    if lt q p
    then (if lt r q then [r; q; p]
          else if lt r p then [q; r; p] else [q; p; r])
    else (if lt r q then (if lt r p then [r; p; q] else [p; r; q])
          else [p; q; r]).
Proof.
  unfold list_sort, binary_insert.
  destruct (lt q p) eqn:E1, (lt r q) eqn:E2, (lt r p) eqn:E3;
    repeat (simpl; rewrite ?E1, ?E2, ?E3); reflexivity.
Qed.

Lemma list_sort_3_perm p q r : list_sort lt [p; q; r] ≡ₚ [p; q; r].
Proof. rewrite list_sort_3. repeat case_match; solve_Permutation. Qed.

Lemma list_sort_3_shape p q r :
  ∃ x y z, list_sort lt [p; q; r] = [x; y; z] ∧ [x; y; z] ≡ₚ [p; q; r].
Proof.
  pose proof (list_sort_3_perm p q r) as Hp. revert Hp.
  rewrite list_sort_3. repeat case_match; eauto 6.
Qed.

(** The six arrangements of a list of three. *)
Lemma Permutation_3_inv (a b c a' b' c' : A) :
  [a; b; c] ≡ₚ [a'; b'; c'] →
  (a' = a ∧ b' = b ∧ c' = c) ∨ (a' = a ∧ b' = c ∧ c' = b) ∨
  (a' = b ∧ b' = a ∧ c' = c) ∨ (a' = b ∧ b' = c ∧ c' = a) ∨
  (a' = c ∧ b' = a ∧ c' = b) ∨ (a' = c ∧ b' = b ∧ c' = a).
Proof.
  intros Hp.
  assert (a ∈ [a'; b'; c']) as Hin by (rewrite <- Hp; left).
  rewrite !elem_of_cons, elem_of_nil in Hin.
  destruct Hin as [->|[->|[->|[]]]].
  - apply Permutation_cons_inv, Permutation_length_2 in Hp.
    destruct Hp as [[-> ->]|[-> ->]]; auto 10.
  - apply (Permutation_cons_app_inv [a'] [c']), Permutation_length_2 in Hp.
    destruct Hp as [[-> ->]|[-> ->]]; auto 10.
  - apply (Permutation_cons_app_inv [a'; b'] []), Permutation_length_2 in Hp.
    destruct Hp as [[-> ->]|[-> ->]]; auto 10.
Qed.

End SortThree.

(** Splits a permutation of three into its six arrangements. *)
Ltac perm3 H :=
  apply Permutation_3_inv in H
    as [(-> & -> & ->)|[(-> & -> & ->)|[(-> & -> & ->)|
       [(-> & -> & ->)|[(-> & -> & ->)|(-> & -> & ->)]]]]].

Lemma sorted_3_ordered a b c :
  is_nan a = false → is_nan b = false → is_nan c = false →
  ∃ x y z, sorted [a; b; c] = [x; y; z] ∧ fle x y = true ∧ fle y z = true.
Proof.
  intros Ha Hb Hc. unfold sorted. rewrite list_sort_3.
  destruct (flt b a) eqn:E1, (flt c b) eqn:E2, (flt c a) eqn:E3;
    do 3 eexists; (split; [reflexivity|]);
    auto using flt_fle, flt_false_fle.
Qed.

(** Sides without a NaN have sorted sides: [sorted] returns them. *)
Lemma sorted_sides_exist a b c :
  is_nan a = false → is_nan b = false → is_nan c = false →
  ∃ x y z, sorted [a; b; c] = [x; y; z] ∧ sorted_sides a b c x y z.
Proof.
  intros Ha Hb Hc.
  destruct (sorted_3_ordered a b c) as (x & y & z & E & Hxy & Hyz); try done.
  exists x, y, z. repeat split; try done.
  rewrite <- E. apply list_sort_3_perm.
Qed.

(** Positive sides have one sorted arrangement only, so [sorted] returns
    it. *)
Lemma sorted_sides_sorted a b c x y z :
  positive a → positive b → positive c →
  sorted_sides a b c x y z → sorted [a; b; c] = [x; y; z].
Proof.
  intros Ha Hb Hc (Hp & Hxy & Hyz).
  destruct (sorted_sides_exist a b c)
    as (x' & y' & z' & E & Hp' & Hxy' & Hyz'); auto using positive_not_nan.
  assert (Forall positive [a; b; c]) as Hall by (repeat constructor; done).
  pose proof Hall as Hall'. rewrite <- Hp in Hall. rewrite <- Hp' in Hall'.
  rewrite !Forall_cons in Hall, Hall'.
  destruct Hall as (? & ? & ? & _), Hall' as (? & ? & ? & _).
  rewrite E. apply (Sorted_unique ple).
  - repeat constructor; done.
  - repeat constructor; done.
  - by rewrite Hp, Hp'.
Qed.

(** ** The classifier *)

Lemma any_3 {A} (p : A → bool) a b c : any p [a; b; c] = p a || p b || p c.
Proof. unfold any; simpl. by rewrite orb_false_r, orb_assoc. Qed.

(** Once the sides are sorted the program walks the decision sequence. *)
Lemma classify_triangle_eq a b c x y z :
  sorted [a; b; c] = [x; y; z] →
  classify_triangle a b c = Ok (label_str (decision_sequence a b c x y z)).
Proof.
  intros E. unfold classify_triangle, decision_sequence. rewrite any_3, E.
  fold (all_equal a b c) (two_equal a b c) (pythagorean x y z).
  by repeat case_match.
Qed.

Lemma classify_triangle_guard a b c :
  fle a zero || fle b zero || fle c zero = true →
  classify_triangle a b c = Ok INVALID_NONPOSITIVE.
Proof. intros H. unfold classify_triangle. by rewrite any_3, H. Qed.

Lemma guard_false a b c :
  fle a zero || fle b zero || fle c zero = false →
  (is_nan a = true ∨ positive a) ∧ (is_nan b = true ∨ positive b) ∧
  (is_nan c = true ∨ positive c).
Proof. rewrite !orb_false_iff. intros [[? ?] ?]. auto using not_fle_zero. Qed.

Lemma guard_positive a b c :
  positive a → positive b → positive c →
  fle a zero || fle b zero || fle c zero = false.
Proof. intros. by rewrite !positive_not_fle_zero. Qed.

Lemma real_positive x : is_nan x = false → fle x zero = false → positive x.
Proof. intros Hn [?|?]%not_fle_zero; [congruence|done]. Qed.



(** C2. The classifier is total: on every triple of floats, zero, negative,
    infinite and NaN sides included, it raises nothing and returns one of the
    six labels. *)
Theorem classify_triangle_total a b c :
  ∃ l : Label, classify_triangle a b c = Ok (label_str l).
Proof.
  destruct (list_sort_3_shape flt a b c) as (x & y & z & E & _).
  eexists. by apply classify_triangle_eq.
Qed.

(** C6. A triple with a side [≤ 0] is labelled INVALID_NONPOSITIVE, whatever
    the other two sides are. *)
Theorem classify_triangle_nonpositive a b c :
  fle a zero = true ∨ fle b zero = true ∨ fle c zero = true →
  classify_triangle a b c = Ok INVALID_NONPOSITIVE.
Proof.
  intros H. apply classify_triangle_guard.
  rewrite !orb_true_iff. tauto.
Qed.

Lemma classify_triangle_nonpositive_witness :
  (fle (of_Z 3) zero = true ∨ fle (of_Z (-4)) zero = true ∨
   fle nan zero = true) ∧
  classify_triangle (of_Z 3) (of_Z (-4)) nan = Ok INVALID_NONPOSITIVE.
Proof.
  split; [right; left; reflexivity|].
  apply (classify_triangle_nonpositive (of_Z 3) (of_Z (-4)) nan).
  right; left; reflexivity.
Defined.

(** C7. Positive sides whose two smallest sum to at most the largest, the sum
    being equal to it included, are labelled INVALID_TRIANGLE_INEQUALITY. *)
Theorem classify_triangle_inequality a b c x y z :
  positive a → positive b → positive c →
  sorted_sides a b c x y z →
  fle (fadd x y) z = true →
  classify_triangle a b c = Ok INVALID_TRIANGLE_INEQUALITY.
Proof.
  intros Ha Hb Hc Hs Hle.
  rewrite (classify_triangle_eq a b c x y z)
    by (by apply sorted_sides_sorted).
  unfold decision_sequence. by rewrite guard_positive, Hle.
Qed.

Lemma classify_triangle_inequality_witness :
  positive (of_Z 2) ∧ positive (of_Z 3) ∧ positive (of_Z 1) ∧
  sorted_sides (of_Z 2) (of_Z 3) (of_Z 1) (of_Z 1) (of_Z 2) (of_Z 3) ∧
  fle (fadd (of_Z 1) (of_Z 2)) (of_Z 3) = true ∧
  classify_triangle (of_Z 2) (of_Z 3) (of_Z 1)
    = Ok INVALID_TRIANGLE_INEQUALITY.
Proof.
  assert (sorted_sides (of_Z 2) (of_Z 3) (of_Z 1)
            (of_Z 1) (of_Z 2) (of_Z 3)) as Hs.
  { split; [|split; reflexivity].
    change ([of_Z 1] ++ [of_Z 2; of_Z 3] ≡ₚ [of_Z 2; of_Z 3] ++ [of_Z 1]).
    apply Permutation_app_comm. }
  repeat (split; [reflexivity || exact Hs|]).
  apply (classify_triangle_inequality
           (of_Z 2) (of_Z 3) (of_Z 1) (of_Z 1) (of_Z 2) (of_Z 3));
    reflexivity || exact Hs.
Defined.

(** The sum in the second guard is the rounded one: a side shorter than
    half the gap between floats at the others is absorbed, and the guard
    fires. *)
Lemma rounded_sum_absorbs :
  fadd tiny (of_Z 1) = of_Z 1 ∧
  classify_triangle (of_Z 1) tiny (of_Z 1) = Ok INVALID_TRIANGLE_INEQUALITY.
Proof. split; reflexivity. Qed.

(** C8. A NaN side passes both guards, since every comparison with NaN is
    false: for [(nan, 1, 1)] no side is [≤ 0], the sorted list is
    [[nan; 1; 1]], [nan + 1 ≤ 1] is false, and the label is ISOSCELES
    because the other two sides are equal. *)
Theorem classify_triangle_nan_side :
  classify_triangle nan (of_Z 1) (of_Z 1) = Ok ISOSCELES ∧
  any (λ x, fle x zero) [nan; of_Z 1; of_Z 1] = false ∧
  sorted [nan; of_Z 1; of_Z 1] = [nan; of_Z 1; of_Z 1] ∧
  fle (fadd nan (of_Z 1)) (of_Z 1) = false ∧
  feq (of_Z 1) (of_Z 1) = true.
Proof. repeat split; reflexivity. Qed.

(** ** Equal sides *)

Lemma feq_refl_positive x : positive x → feq x x = true.
Proof. intros Hx. by apply feq_positive. Qed.

Lemma feq_false_positive x y : positive x → x ≠ y → feq x y = false.
Proof.
  intros Hx Hne. destruct (feq x y) eqn:E; [|done].
  by apply feq_positive in E.
Qed.

Lemma all_equal_positive a b c :
  positive a → positive b → all_equal a b c = true ↔ a = b ∧ b = c.
Proof.
  intros Ha Hb. unfold all_equal.
  by rewrite andb_true_iff, !feq_positive.
Qed.




(** The isosceles right triangle with legs [sqrt(2)] and hypotenuse [2]:
    its sides pass the Pythagorean test. *)
Lemma sqrt2_pythagorean : pythagorean sqrt2 sqrt2 (of_Z 2) = true.
Proof. reflexivity. Qed.




(** ** Order of the sides *)

Lemma guard_perm a b c a' b' c' :
  [a; b; c] ≡ₚ [a'; b'; c'] →
  fle a' zero || fle b' zero || fle c' zero
    = fle a zero || fle b zero || fle c zero.
Proof.
  intros Hp. perm3 Hp;
    by destruct (fle a zero), (fle b zero), (fle c zero).
Qed.

Lemma two_equal_perm a b c a' b' c' :
  [a; b; c] ≡ₚ [a'; b'; c'] → two_equal a' b' c' = two_equal a b c.
Proof.
  intros Hp. unfold two_equal. perm3 Hp;
    rewrite ?(feq_sym b a), ?(feq_sym c b), ?(feq_sym c a);
    by destruct (feq a b), (feq b c), (feq a c).
Qed.

Lemma all_equal_perm a b c a' b' c' :
  positive a → positive b → positive c →
  [a; b; c] ≡ₚ [a'; b'; c'] → all_equal a' b' c' = all_equal a b c.
Proof.
  intros Ha Hb Hc Hp. apply eq_true_iff_eq.
  perm3 Hp; rewrite !all_equal_positive by done;
    split; intros [? ?]; split; congruence.
Qed.

(** With a NaN among the sides, the second guard, the equilateral test and
    the Pythagorean test are all false. *)
Lemma nan_tests x y z :
  is_nan x = true ∨ is_nan y = true ∨ is_nan z = true →
  fle (fadd x y) z = false ∧ pythagorean x y z = false.
Proof.
  unfold pythagorean.
  intros [H|[H|H]]; apply is_nan_true in H; subst.
  - done.
  - by rewrite fmul_nan, !fadd_nan_r.
  - by rewrite fmul_nan, fsub_nan_r, fle_nan_r.
Qed.

Lemma nan_all_equal a b c :
  is_nan a = true ∨ is_nan b = true ∨ is_nan c = true →
  all_equal a b c = false.
Proof.
  unfold all_equal.
  intros [H|[H|H]]; apply is_nan_true in H; subst.
  - done.
  - by rewrite feq_nan_r.
  - by rewrite feq_nan_r, andb_false_r.
Qed.

Lemma nan_perm (a b c a' b' c' : float) :
  [a; b; c] ≡ₚ [a'; b'; c'] →
  is_nan a = true ∨ is_nan b = true ∨ is_nan c = true →
  is_nan a' = true ∨ is_nan b' = true ∨ is_nan c' = true.
Proof. intros Hp. perm3 Hp; tauto. Qed.

(** The label depends on [sorted] only through two facts: its result is an
    arrangement of the sides, and it is in order when no side is NaN.  Any
    sorting routine with these two properties yields the same label. *)
Lemma classify_triangle_arrangement a b c x y z :
  [x; y; z] ≡ₚ [a; b; c] →
  (is_nan a = false → is_nan b = false → is_nan c = false →
   fle x y = true ∧ fle y z = true) →
  classify_triangle a b c = Ok (label_str (decision_sequence a b c x y z)).
Proof.
  intros Hp Hord.
  destruct (fle a zero || fle b zero || fle c zero) eqn:G.
  { rewrite classify_triangle_guard by done.
    unfold decision_sequence. by rewrite G. }
  destruct (list_sort_3_shape flt a b c) as (x0 & y0 & z0 & E & Hp0).
  rewrite (classify_triangle_eq a b c x0 y0 z0 E).
  pose proof (guard_false a b c G) as (Ga & Gb & Gc).
  destruct (is_nan a || is_nan b || is_nan c) eqn:N.
  - rewrite !orb_true_iff in N.
    assert (is_nan a = true ∨ is_nan b = true ∨ is_nan c = true) as N'
      by tauto.
    unfold decision_sequence.
    destruct (nan_tests x y z) as [-> ->];
      [by apply (nan_perm a b c); [symmetry|]|].
    by destruct (nan_tests x0 y0 z0) as [-> ->];
      [by apply (nan_perm a b c); [symmetry|]|].
  - apply orb_false_iff in N as [[Na Nb]%orb_false_iff Nc].
    destruct Ga as [?|Ha], Gb as [?|Hb], Gc as [?|Hc]; try congruence.
    destruct (Hord Na Nb Nc) as [Hxy Hyz].
    change (sorted [a; b; c] = [x0; y0; z0]) in E.
    rewrite (sorted_sides_sorted a b c x y z) in E by done.
    by injection E as <- <- <-.
Qed.

(** The label read off the decision sequence does not depend on the order
    in which the sides are given. *)
Lemma decision_sequence_perm a b c x y z a' b' c' x' y' z' :
  [a; b; c] ≡ₚ [a'; b'; c'] →
  sorted [a; b; c] = [x; y; z] → sorted [a'; b'; c'] = [x'; y'; z'] →
  decision_sequence a' b' c' x' y' z' = decision_sequence a b c x y z.
Proof.
  intros Hp E E'.
  assert ([x; y; z] ≡ₚ [a; b; c]) as Hs
    by (rewrite <- E; apply list_sort_3_perm).
  assert ([x'; y'; z'] ≡ₚ [a'; b'; c']) as Hs'
    by (rewrite <- E'; apply list_sort_3_perm).
  unfold decision_sequence.
  rewrite (guard_perm a b c a' b' c' Hp), (two_equal_perm a b c a' b' c' Hp).
  destruct (fle a zero || fle b zero || fle c zero) eqn:G; [done|].
  apply guard_false in G as (Ga & Gb & Gc).
  destruct (is_nan a || is_nan b || is_nan c) eqn:N.
  - rewrite !orb_true_iff in N.
    assert (is_nan a = true ∨ is_nan b = true ∨ is_nan c = true) as N'
      by tauto.
    clear N; rename N' into N.
    destruct (nan_tests x y z) as [-> ->];
      [by apply (nan_perm a b c); [symmetry|]|].
    destruct (nan_tests x' y' z') as [-> ->];
      [apply (nan_perm a b c); [by rewrite Hs'|done]|].
    rewrite (nan_all_equal a b c) by done.
    by rewrite (nan_all_equal a' b' c') by (by apply (nan_perm a b c)).
  - apply orb_false_iff in N as [[Na Nb]%orb_false_iff Nc].
    destruct Ga as [?|Ha], Gb as [?|Hb], Gc as [?|Hc]; try congruence.
    rewrite (all_equal_perm a b c a' b' c') by done.
    assert (sorted [a; b; c] = [x'; y'; z']) as E''.
    { destruct (sorted_sides_exist a' b' c')
        as (x1 & y1 & z1 & E1 & _ & Hxy & Hyz).
      - perm3 Hp; done.
      - perm3 Hp; done.
      - perm3 Hp; done.
      - rewrite E' in E1. injection E1 as <- <- <-.
        apply sorted_sides_sorted; try done.
        repeat split; try done. by rewrite Hs'. }
    rewrite E in E''. by injection E'' as <- <- <-.
Qed.

(** C5. The label does not depend on the order of the sides: a triple and
    any permutation of it are labelled alike.  In particular every
    permutation of [(3, 4, 5)] is labelled RIGHT_SCALENE. *)
Theorem classify_triangle_permutation :
  (∀ a b c a' b' c',
     [a; b; c] ≡ₚ [a'; b'; c'] →
     classify_triangle a' b' c' = classify_triangle a b c) ∧
  (∀ a' b' c',
     [of_Z 3; of_Z 4; of_Z 5] ≡ₚ [a'; b'; c'] →
     classify_triangle a' b' c' = Ok RIGHT_SCALENE).
Proof.
  assert (∀ a b c a' b' c',
     [a; b; c] ≡ₚ [a'; b'; c'] →
     classify_triangle a' b' c' = classify_triangle a b c) as Hperm.
  { intros a b c a' b' c' Hp.
    destruct (list_sort_3_shape flt a b c) as (x & y & z & E & _).
    destruct (list_sort_3_shape flt a' b' c') as (x' & y' & z' & E' & _).
    rewrite (classify_triangle_eq a b c x y z E).
    rewrite (classify_triangle_eq a' b' c' x' y' z' E').
    do 2 f_equal. by apply decision_sequence_perm. }
  split; [done|].
  intros a' b' c' Hp. by rewrite (Hperm _ _ _ _ _ _ Hp).
Qed.

Lemma classify_triangle_permutation_witness :
  [of_Z 3; of_Z 4; of_Z 5] ≡ₚ [of_Z 5; of_Z 3; of_Z 4] ∧
  classify_triangle (of_Z 5) (of_Z 3) (of_Z 4)
    = classify_triangle (of_Z 3) (of_Z 4) (of_Z 5) ∧
  classify_triangle (of_Z 5) (of_Z 3) (of_Z 4) = Ok RIGHT_SCALENE.
Proof.
  assert ([of_Z 3; of_Z 4; of_Z 5] ≡ₚ [of_Z 5; of_Z 3; of_Z 4]) as Hp.
  { change ([of_Z 3; of_Z 4] ++ [of_Z 5] ≡ₚ [of_Z 5] ++ [of_Z 3; of_Z 4]).
    apply Permutation_app_comm. }
  split; [exact Hp|]. split.
  - exact (proj1 classify_triangle_permutation _ _ _ _ _ _ Hp).
  - exact (proj2 classify_triangle_permutation _ _ _ Hp).
Defined.

(** ** The harness: [compare] *)

Section Compare.
Variable expected : gmap string string.

Lemma compare_step_keeps ms r line :
  line ∈ ms → line ∈ compare_step expected ms r.
Proof.
  intros Hin. unfold compare_step. destruct r as [case_id actual].
  case_bool_decide; [|done]. apply elem_of_app; by left.
Qed.

Lemma compare_loop_keeps results ms line :
  line ∈ ms → line ∈ foldl (compare_step expected) ms results.
Proof.
  revert ms. induction results as [|r results IH]; intros ms Hin; [done|].
  simpl. by apply IH, compare_step_keeps.
Qed.

(** A result that differs from what the table holds for its identifier,
    or from [MISSING] when the table holds nothing, gets its line. *)
Lemma compare_loop_records results ms case_id actual :
  (case_id, actual) ∈ results →
  actual ≠ default MISSING (expected !! case_id) →
  mismatch_line case_id (default MISSING (expected !! case_id)) actual
    ∈ foldl (compare_step expected) ms results.
Proof.
  revert ms. induction results as [|r results IH]; intros ms Hin Hne.
  - by apply elem_of_nil in Hin.
  - apply elem_of_cons in Hin as [<-|Hin]; simpl; [|by apply IH].
    apply compare_loop_keeps. unfold compare_step.
    rewrite bool_decide_true by done. apply elem_of_app; right.
    by apply list_elem_of_singleton.
Qed.

End Compare.

(** No label is the string [MISSING]. *)
Lemma classify_triangle_not_missing a b c label :
  classify_triangle a b c = Ok label → label ≠ MISSING.
Proof.
  destruct (list_sort_3_shape flt a b c) as (x & y & z & E & _).
  rewrite (classify_triangle_eq a b c x y z E). intros [= <-].
  by destruct (decision_sequence a b c x y z).
Qed.

(** C9. A classification result whose case identifier the expected-label
    table does not hold makes [compare] fail in no way: [compare] returns,
    the lines it returns hold the mismatch of that case with [<missing>] as
    the expected value, and the count it returns is the number of lines. *)
Theorem compare_missing results expected case_id a b c label :
  classify_triangle a b c = Ok label →
  (case_id, label) ∈ results →
  expected !! case_id = None →
  ∃ failures mismatches,
    compare results expected = (failures, mismatches) ∧
    (case_id +:+ ": expected <missing>, got " +:+ label) ∈ mismatches ∧
    failures = length mismatches.
Proof.
  intros Hl Hin Hnone. do 2 eexists. split; [reflexivity|]. split; [|done].
  pose proof (compare_loop_records expected results [] case_id label Hin)
    as Hrec.
  rewrite Hnone in Hrec. apply Hrec.
  by apply (classify_triangle_not_missing a b c).
Qed.

Lemma compare_missing_witness :
  classify_triangle (of_Z 2) (of_Z 3) (of_Z 4) = Ok SCALENE ∧
  ("P7", SCALENE) ∈ [("P6", SCALENE); ("P7", SCALENE)] ∧
  ({["P6" := SCALENE]} : gmap string string) !! "P7" = None ∧
  ∃ failures mismatches,
    compare [("P6", SCALENE); ("P7", SCALENE)] {["P6" := SCALENE]}
      = (failures, mismatches) ∧
    ("P7" +:+ ": expected <missing>, got " +:+ SCALENE) ∈ mismatches ∧
    failures = length mismatches.
Proof.
  assert (("P7", SCALENE) ∈ [("P6", SCALENE); ("P7", SCALENE)]) as Hin
    by (right; left).
  repeat (split; [reflexivity || exact Hin|]).
  apply (compare_missing _ _ "P7" (of_Z 2) (of_Z 3) (of_Z 4) SCALENE);
    reflexivity || exact Hin.
Defined.

(** ** The batch *)

Lemma bind_Ok {A B} (f : A → result B) (m : result A) b :
  m ≫= f = Ok b → ∃ a, m = Ok a ∧ f a = Ok b.
Proof. destruct m as [a|e]; [eauto|discriminate]. Qed.

Section BatchFacts.
Variable float_of_str : string → option float.

(** The loop appends one pair per row and leaves the pairs it was given
    alone. *)
Lemma classify_rows_inv rows acc results :
  classify_rows float_of_str rows acc = Ok results →
  ∃ new, results = acc ++ new ∧
         Forall2 (row_labelled float_of_str) rows new.
Proof.
  revert acc. induction rows as [|row rows IH]; intros acc H; simpl in H.
  - injection H as <-. exists []. by rewrite app_nil_r.
  - apply bind_Ok in H as (case_id & Hid & H).
    apply bind_Ok in H as (a & Ha & H).
    apply bind_Ok in H as (b & Hb & H).
    apply bind_Ok in H as (c & Hc & H).
    apply bind_Ok in H as (label & Hl & H).
    apply IH in H as (new & -> & Hnew).
    exists ((case_id, label) :: new). split; [by rewrite <- app_assoc|].
    constructor; [|done]. exists a, b, c. repeat split; try done.
    unfold row_sides. by rewrite Ha, Hb, Hc.
Qed.

End BatchFacts.

(** * Further properties of the code *)

(** ** [compare] as a whole *)

Section FilterFacts.
Context {A : Type} (P Q : A → Prop).
Context `{!∀ x, Decision (P x), !∀ x, Decision (Q x)}.

Lemma filter_nil_Forall (l : list A) :
  filter P l = [] ↔ Forall (λ x, ¬ P x) l.
Proof.
  induction l as [|x l IH]; [done|].
  rewrite filter_cons, Forall_cons. case_decide; [|tauto].
  split; [done|]. tauto.
Qed.

Lemma filter_ext_elem_of (l : list A) :
  (∀ x, x ∈ l → P x ↔ Q x) → filter P l = filter Q l.
Proof.
  induction l as [|x l IH]; intros Hext; [done|].
  rewrite !filter_cons, IH by (intros y Hy; apply Hext; by right).
  pose proof (Hext x (list_elem_of_here x l)).
  repeat case_decide; tauto || done.
Qed.

End FilterFacts.

Section CompareFacts.
Variable expected : gmap string string.

Lemma compare_step_eq ms r :
  compare_step expected ms r
    = ms ++ (line_of expected <$> filter (λ r, ¬ agrees expected r) [r]).
Proof.
  unfold compare_step, line_of, agrees. destruct r as [case_id actual].
  rewrite filter_cons, filter_nil. simpl.
  case_bool_decide; case_decide; try done. by rewrite app_nil_r.
Qed.

Lemma compare_loop_eq results ms :
  foldl (compare_step expected) ms results
    = ms ++ (line_of expected <$> filter (λ r, ¬ agrees expected r) results).
Proof.
  revert ms. induction results as [|r results IH]; intros ms; simpl.
  - by rewrite app_nil_r.
  - rewrite IH, compare_step_eq, <- app_assoc, <- fmap_app.
    by rewrite <- filter_app.
Qed.

Lemma compare_eq results :
  compare results expected
    = (length (filter (λ r, ¬ agrees expected r) results),
       line_of expected <$> filter (λ r, ¬ agrees expected r) results).
Proof.
  unfold compare. rewrite compare_loop_eq. simpl. by rewrite length_fmap.
Qed.

Lemma no_disagreement results :
  filter (λ r, ¬ agrees expected r) results = []
  ↔ Forall (agrees expected) results.
Proof.
  rewrite filter_nil_Forall. apply Forall_proper; [|done].
  intros r. split; [apply dec_stable|auto].
Qed.

End CompareFacts.

(** X1. [compare] reports the results that disagree with the table, all of
    them and no others: one line each, in the order of the results, a result
    listed twice being reported twice; the count is their number. *)
Theorem compare_reports results expected :
  compare results expected
    = (length (filter (λ r, ¬ agrees expected r) results),
       line_of expected <$> filter (λ r, ¬ agrees expected r) results).
Proof.
  unfold compare. rewrite compare_loop_eq. simpl.
  by rewrite length_fmap.
Qed.

(** X2. The count [compare] returns is at most the number of results, and it
    is zero, the list of lines being empty, exactly when every label is the
    one [expected.get(case_id, "<missing>")] gives. *)
Theorem compare_passes results expected :
  ((compare results expected).1 ≤ length results)%nat ∧
  ((compare results expected).1 = 0%nat ↔ Forall (agrees expected) results) ∧
  ((compare results expected).2 = [] ↔ Forall (agrees expected) results).
Proof.
  rewrite compare_eq. simpl. rewrite <- no_disagreement.
  split; [apply length_filter|]. split.
  - by rewrite length_zero_iff_nil.
  - split; [apply fmap_nil_inv|by intros ->].
Qed.

(** X3. [compare] looks the table up at the identifiers of the results
    only: an entry for a case that has no result, added, changed or removed,
    changes nothing, so a case that was expected but not run goes
    unreported. *)
Theorem compare_ignores_unrun_cases results expected case_id exp :
  case_id ∉ results.*1 →
  compare results (<[case_id := exp]> expected) = compare results expected ∧
  compare results (delete case_id expected) = compare results expected.
Proof.
  intros Hnot.
  assert (∀ expected',
            (∀ r, r ∈ results → expected' !! r.1 = expected !! r.1) →
            compare results expected' = compare results expected) as Hagree.
  { intros expected' H. rewrite !compare_eq.
    assert (filter (λ r, ¬ agrees expected' r) results
            = filter (λ r, ¬ agrees expected r) results) as ->.
    { apply filter_ext_elem_of. intros r Hr. unfold agrees. by rewrite H. }
    f_equal. apply Forall_fmap_ext_1, Forall_forall.
    intros r Hr%list_elem_of_filter. unfold line_of.
    by rewrite H by apply Hr. }
  split; apply Hagree; intros r Hr.
  - apply lookup_insert_ne. intros ->. apply Hnot.
    by apply list_elem_of_fmap_2.
  - apply lookup_delete_ne. intros ->. apply Hnot.
    by apply list_elem_of_fmap_2.
Qed.

Lemma compare_ignores_unrun_cases_witness :
  ("P9" ∉ [("P6", SCALENE)].*1) ∧
  compare [("P6", SCALENE)] (<["P9" := ISOSCELES]> {["P6" := SCALENE]})
    = compare [("P6", SCALENE)] {["P6" := SCALENE]} ∧
  compare [("P6", SCALENE)] (delete "P9" {["P6" := SCALENE]})
    = compare [("P6", SCALENE)] {["P6" := SCALENE]}.
Proof.
  assert ("P9" ∉ [("P6", SCALENE)].*1) as Hnot
    by (intros [[=]|[]%elem_of_nil]%elem_of_cons).
  split; [exact Hnot|].
  exact (compare_ignores_unrun_cases _ {["P6" := SCALENE]} "P9" ISOSCELES
           Hnot).
Defined.

(** X4. Comparing two lists of results one after the other is comparing
    each: the counts add up and the lines follow one another. *)
Theorem compare_app results1 results2 expected :
  compare (results1 ++ results2) expected
    = (((compare results1 expected).1 + (compare results2 expected).1)%nat,
       (compare results1 expected).2 ++ (compare results2 expected).2).
Proof.
  rewrite !compare_eq. simpl.
  by rewrite filter_app, fmap_app, length_app.
Qed.

(** ** [load_expected] *)

Lemma getitem_Ok row key v : getitem row key = Ok v ↔ row !! key = Some v.
Proof. unfold getitem. destruct (row !! key); split; congruence. Qed.

Section LoadExpected.
Implicit Types rows : list (gmap string string).
Implicit Types expected : gmap string string.

Lemma load_expected_rows_app rows1 rows2 expected :
  load_expected_rows (rows1 ++ rows2) expected
    = load_expected_rows rows1 expected ≫= load_expected_rows rows2.
Proof.
  revert expected.
  induction rows1 as [|row rows1 IH]; intros expected; [done|].
  simpl. destruct (getitem row "expected") as [exp|]; [|done].
  destruct (getitem row "case_id") as [case_id|]; [|done]. apply IH.
Qed.

(** Rows for other cases leave an entry alone. *)
Lemma load_expected_rows_lookup rows expected expected' case_id :
  load_expected_rows rows expected = Ok expected' →
  Forall (λ row, row !! "case_id" ≠ Some case_id) rows →
  expected' !! case_id = expected !! case_id.
Proof.
  revert expected. induction rows as [|row rows IH]; intros expected H Hall.
  - by injection H as <-.
  - simpl in H. apply Forall_cons in Hall as [Hrow Hall].
    apply bind_Ok in H as (exp & _ & H).
    apply bind_Ok in H as (id & Hid%getitem_Ok & H).
    rewrite (IH _ H Hall). apply lookup_insert_ne. congruence.
Qed.

Lemma load_expected_rows_is_Some rows expected expected' case_id :
  load_expected_rows rows expected = Ok expected' →
  is_Some (expected' !! case_id) ↔
  is_Some (expected !! case_id) ∨
  Exists (λ row, row !! "case_id" = Some case_id) rows.
Proof.
  revert expected. induction rows as [|row rows IH]; intros expected H.
  - injection H as <-. rewrite Exists_nil. tauto.
  - simpl in H.
    apply bind_Ok in H as (exp & _ & H).
    apply bind_Ok in H as (id & Hid%getitem_Ok & H).
    rewrite (IH _ H), Exists_cons, Hid.
    destruct (decide (id = case_id)) as [->|Hne].
    + rewrite lookup_insert_eq. split; [auto|]. intros _. left. by eexists.
    + rewrite lookup_insert_ne by done. split; [tauto|].
      intros [?|[[=]|?]]; tauto.
Qed.

Lemma load_expected_rows_from rows expected expected' case_id exp :
  load_expected_rows rows expected = Ok expected' →
  expected' !! case_id = Some exp →
  expected !! case_id = Some exp ∨
  Exists (λ row, row !! "case_id" = Some case_id ∧
                 row !! "expected" = Some exp) rows.
Proof.
  revert expected. induction rows as [|row rows IH]; intros expected H Hl.
  - injection H as <-. by left.
  - simpl in H.
    apply bind_Ok in H as (v & Hv%getitem_Ok & H).
    apply bind_Ok in H as (id & Hid%getitem_Ok & H).
    destruct (IH _ H Hl) as [Hin|Hex]; [|right; by right].
    destruct (decide (id = case_id)) as [->|Hne].
    + rewrite lookup_insert_eq in Hin. injection Hin as ->.
      right. by left.
    + rewrite lookup_insert_ne in Hin by done. by left.
Qed.

Lemma load_expected_rows_Ok rows expected :
  (∃ expected', load_expected_rows rows expected = Ok expected') ↔
  Forall (λ row, is_Some (row !! "expected") ∧ is_Some (row !! "case_id"))
    rows.
Proof.
  revert expected. induction rows as [|row rows IH]; intros expected.
  - split; [done|]. intros _. by eexists.
  - rewrite Forall_cons. simpl. unfold getitem.
    destruct (row !! "expected") as [exp|]; simpl.
    2: { split; [by intros [? [=]]|]. by intros [[[? [=]] _] _]. }
    destruct (row !! "case_id") as [id|]; simpl.
    2: { split; [by intros [? [=]]|]. by intros [[_ [? [=]]] _]. }
    rewrite IH. split; [|tauto]. intros H. split; [|done]. by split; eexists.
Qed.

End LoadExpected.

Lemma expected_row_lookup r :
  expected_row r !! "case_id" = Some r.1 ∧
  expected_row r !! "expected" = Some r.2.
Proof. unfold expected_row. split; by simplify_map_eq. Qed.

(** X5. When the table names a case more than once, the last of its rows
    decides the expected label. *)
Theorem load_expected_last_wins pre row post expected case_id exp :
  load_expected (pre ++ row :: post) = Ok expected →
  row !! "case_id" = Some case_id →
  row !! "expected" = Some exp →
  Forall (λ row', row' !! "case_id" ≠ Some case_id) post →
  expected !! case_id = Some exp.
Proof.
  unfold load_expected. rewrite load_expected_rows_app.
  intros (m & _ & H)%bind_Ok Hid Hexp Hpost. simpl in H.
  apply getitem_Ok in Hid, Hexp. rewrite Hexp, Hid in H. simpl in H.
  rewrite (load_expected_rows_lookup _ _ _ case_id H Hpost).
  apply lookup_insert_eq.
Qed.

Lemma load_expected_last_wins_witness :
  load_expected [expected_row ("P4", SCALENE); expected_row ("P4", ISOSCELES);
                 expected_row ("P6", SCALENE)]
    = Ok {["P4" := ISOSCELES; "P6" := SCALENE]} ∧
  expected_row ("P4", ISOSCELES) !! "case_id" = Some "P4" ∧
  expected_row ("P4", ISOSCELES) !! "expected" = Some ISOSCELES ∧
  Forall (λ row', row' !! "case_id" ≠ Some "P4")
    [expected_row ("P6", SCALENE)] ∧
  ({["P4" := ISOSCELES; "P6" := SCALENE]} : gmap string string) !! "P4"
    = Some ISOSCELES.
Proof.
  assert (load_expected [expected_row ("P4", SCALENE);
                         expected_row ("P4", ISOSCELES);
                         expected_row ("P6", SCALENE)]
            = Ok {["P4" := ISOSCELES; "P6" := SCALENE]}) as H
    by (vm_compute; reflexivity).
  assert (Forall (λ row', row' !! "case_id" ≠ Some "P4")
            [expected_row ("P6", SCALENE)]) as Hpost
    by (repeat constructor; discriminate).
  split; [exact H|]. do 2 (split; [reflexivity|]). split; [exact Hpost|].
  exact (load_expected_last_wins [expected_row ("P4", SCALENE)] _ _ _
           "P4" ISOSCELES H eq_refl eq_refl Hpost).
Defined.

(** X6. The table [load_expected] returns has no entry for a case exactly
    when no row names that case. *)
Theorem load_expected_domain rows expected case_id :
  load_expected rows = Ok expected →
  expected !! case_id = None ↔
  Forall (λ row, row !! "case_id" ≠ Some case_id) rows.
Proof.
  intros H. rewrite eq_None_not_Some.
  rewrite (load_expected_rows_is_Some _ _ _ case_id H), lookup_empty.
  rewrite Forall_forall. split.
  - intros Hn row Hrow Heq. apply Hn. right. apply Exists_exists. eauto.
  - intros Hall [[? [=]]|(row & Hrow & Heq)%Exists_exists].
    by apply (Hall row).
Qed.

Lemma load_expected_domain_witness :
  load_expected [expected_row ("P4", ISOSCELES)]
    = Ok {["P4" := ISOSCELES]} ∧
  (({["P4" := ISOSCELES]} : gmap string string) !! "P9" = None ↔
   Forall (λ row, row !! "case_id" ≠ Some "P9")
     [expected_row ("P4", ISOSCELES)]).
Proof.
  assert (load_expected [expected_row ("P4", ISOSCELES)]
            = Ok {["P4" := ISOSCELES]}) as H by (vm_compute; reflexivity).
  split; [exact H|].
  exact (load_expected_domain _ _ "P9" H).
Defined.

(** X7. Every entry of the table comes from a row of the file: the row
    names the case and gives the label. *)
Theorem load_expected_entries rows expected case_id exp :
  load_expected rows = Ok expected →
  expected !! case_id = Some exp →
  ∃ row, row ∈ rows ∧ row !! "case_id" = Some case_id ∧
         row !! "expected" = Some exp.
Proof.
  intros H Hl.
  destruct (load_expected_rows_from _ _ _ _ _ H Hl) as [[=]|Hex].
  apply Exists_exists in Hex as (row & Hin & Hid & Hexp). eauto.
Qed.

Lemma load_expected_entries_witness :
  load_expected [expected_row ("P4", ISOSCELES)]
    = Ok {["P4" := ISOSCELES]} ∧
  ({["P4" := ISOSCELES]} : gmap string string) !! "P4" = Some ISOSCELES ∧
  ∃ row, row ∈ [expected_row ("P4", ISOSCELES)] ∧
         row !! "case_id" = Some "P4" ∧ row !! "expected" = Some ISOSCELES.
Proof.
  assert (load_expected [expected_row ("P4", ISOSCELES)]
            = Ok {["P4" := ISOSCELES]}) as H by (vm_compute; reflexivity).
  split; [exact H|]. split; [reflexivity|].
  exact (load_expected_entries _ _ "P4" ISOSCELES H eq_refl).
Defined.

(** X8. [load_expected] stops at the first row that lacks a column and
    raises [KeyError] for it, whatever follows; for a row that lacks both
    columns the key named is ["expected"], which is read first. *)
Theorem load_expected_raises good row rest expected :
  load_expected good = Ok expected →
  (row !! "expected" = None →
   load_expected (good ++ row :: rest) = Raise (KeyError "expected")) ∧
  (is_Some (row !! "expected") → row !! "case_id" = None →
   load_expected (good ++ row :: rest) = Raise (KeyError "case_id")).
Proof.
  unfold load_expected. intros H. rewrite load_expected_rows_app, H. simpl.
  unfold getitem. split.
  - by intros ->.
  - intros [exp ->] ->. done.
Qed.

Lemma load_expected_raises_witness :
  load_expected [expected_row ("P4", ISOSCELES)]
    = Ok {["P4" := ISOSCELES]} ∧
  (∅ : gmap string string) !! "expected" = None ∧
  load_expected ([expected_row ("P4", ISOSCELES)] ++
                 ∅ :: [expected_row ("P6", SCALENE)])
    = Raise (KeyError "expected").
Proof.
  assert (load_expected [expected_row ("P4", ISOSCELES)]
            = Ok {["P4" := ISOSCELES]}) as H by (vm_compute; reflexivity).
  split; [exact H|]. split; [reflexivity|].
  exact (proj1 (load_expected_raises _ ∅ [expected_row ("P6", SCALENE)] _ H)
           eq_refl).
Defined.

(** X9. [load_expected] returns a table exactly when every row has both
    columns. *)
Theorem load_expected_returns rows :
  (∃ expected, load_expected rows = Ok expected) ↔
  Forall (λ row, is_Some (row !! "expected") ∧ is_Some (row !! "case_id"))
    rows.
Proof. unfold load_expected. apply load_expected_rows_Ok. Qed.

(** X10. Writing the results out as the table of expected labels, loading
    it and comparing the results with it reports no failure exactly when no
    two results give one case different labels. *)
Theorem load_expected_compare_round_trip results :
  ∃ expected,
    load_expected (expected_row <$> results) = Ok expected ∧
    (compare results expected = (0%nat, []) ↔
     ∀ r r', r ∈ results → r' ∈ results → r.1 = r'.1 → r.2 = r'.2).
Proof.
  destruct (proj2 (load_expected_rows_Ok (expected_row <$> results) ∅))
    as [expected H].
  { apply Forall_fmap, Forall_forall. intros r _. simpl.
    destruct (expected_row_lookup r) as [-> ->]. by split; eexists. }
  exists expected. split; [done|].
  assert (∀ r, r ∈ results → ∃ r', r' ∈ results ∧ r'.1 = r.1 ∧
                                   expected !! r.1 = Some r'.2) as Hlook.
  { intros r Hr.
    assert (is_Some (expected !! r.1)) as [v Hv].
    { apply (load_expected_rows_is_Some _ _ _ r.1 H). right.
      apply Exists_exists. exists (expected_row r).
      split; [by apply list_elem_of_fmap_2|apply expected_row_lookup]. }
    destruct (load_expected_rows_from _ _ _ _ _ H Hv) as [[=]|Hex].
    apply Exists_exists in Hex as (row & Hin & Hid & Hexp).
    apply list_elem_of_fmap in Hin as (r' & -> & Hr').
    destruct (expected_row_lookup r') as [Hid' Hexp'].
    rewrite Hid' in Hid. rewrite Hexp' in Hexp.
    injection Hid as Hid. injection Hexp as <-. eauto. }
  rewrite compare_eq. split.
  - intros [= Hlen _]. apply length_zero_iff_nil, no_disagreement in Hlen.
    rewrite Forall_forall in Hlen. intros r1 r2 H1 H2 Heq.
    pose proof (Hlen r1 H1) as A1. pose proof (Hlen r2 H2) as A2.
    unfold agrees in A1, A2. rewrite Heq in A1. congruence.
  - intros Hfun.
    assert (filter (λ r, ¬ agrees expected r) results = []) as ->; [|done].
    apply no_disagreement, Forall_forall. intros r Hr.
    destruct (Hlook r Hr) as (r' & Hr' & Hid & Hl).
    unfold agrees. rewrite Hl. simpl. symmetry. by apply Hfun.
Qed.

(** ** [classify_batch] as a whole *)

Section BatchMore.
Variable float_of_str : string → option float.
Implicit Types rows : list (gmap string string).

Lemma classify_rows_cons row rows acc :
  classify_rows float_of_str (row :: rows) acc
    = row_entry float_of_str row
        ≫= λ r, classify_rows float_of_str rows (acc ++ [r]).
Proof.
  simpl. unfold row_entry.
  destruct (getitem row "case_id") as [case_id|]; [simpl|done].
  destruct (getitem row "a" ≫= to_float float_of_str) as [a|]; [simpl|done].
  destruct (getitem row "b" ≫= to_float float_of_str) as [b|]; [simpl|done].
  destruct (getitem row "c" ≫= to_float float_of_str) as [c|]; [simpl|done].
  by destruct (classify_triangle a b c).
Qed.

Lemma classify_rows_mapM rows acc :
  classify_rows float_of_str rows acc
    = mapM (row_entry float_of_str) rows ≫= λ entries, Ok (acc ++ entries).
Proof.
  revert acc. induction rows as [|row rows IH]; intros acc.
  - simpl. by rewrite app_nil_r.
  - rewrite classify_rows_cons. simpl.
    destruct (row_entry float_of_str row) as [r|]; [simpl|done].
    rewrite IH. destruct (mapM (row_entry float_of_str) rows); [simpl|done].
    by rewrite <- app_assoc.
Qed.

(** The loop with its accumulator is the map of [row_entry] over the rows
    that stops at the first exception. *)
Lemma classify_batch_eq_mapM rows :
  classify_batch float_of_str rows = mapM (row_entry float_of_str) rows.
Proof.
  unfold classify_batch. rewrite classify_rows_mapM.
  by destruct (mapM _ rows).
Qed.

Lemma mapM_result_app {A B} (f : A → result B) (l1 l2 : list A) :
  mapM f (l1 ++ l2)
    = k1 ← mapM f l1; k2 ← mapM f l2; mret (k1 ++ k2).
Proof.
  induction l1 as [|x l1 IH]; simpl.
  - by destruct (mapM f l2).
  - destruct (f x) as [y|]; [simpl|done].
    rewrite IH. destruct (mapM f l1) as [k1|]; [simpl|done].
    by destruct (mapM f l2).
Qed.

Lemma row_entry_labelled row r :
  row_entry float_of_str row = Ok r ↔ row_labelled float_of_str row r.
Proof.
  unfold row_entry, row_labelled, row_sides. split.
  - intros H.
    apply bind_Ok in H as (case_id & Hid & H).
    apply bind_Ok in H as (a & Ha & H).
    apply bind_Ok in H as (b & Hb & H).
    apply bind_Ok in H as (c & Hc & H).
    apply bind_Ok in H as (label & Hl & H). injection H as <-.
    exists a, b, c. by rewrite Ha, Hb, Hc.
  - intros (a & b & c & Hid & H & Hl). rewrite Hid. simpl.
    apply bind_Ok in H as (a' & Ha & H).
    apply bind_Ok in H as (b' & Hb & H).
    apply bind_Ok in H as (c' & Hc & H). injection H as -> -> ->.
    rewrite Ha, Hb, Hc. simpl. rewrite Hl. by destruct r.
Qed.

Lemma classify_batch_stops good bad rest results e :
  classify_batch float_of_str good = Ok results →
  row_entry float_of_str bad = Raise e →
  classify_batch float_of_str (good ++ bad :: rest) = Raise e.
Proof.
  rewrite !classify_batch_eq_mapM, mapM_result_app.
  intros -> Hbad. simpl. by rewrite Hbad.
Qed.

Lemma classify_batch_length rows results :
  classify_batch float_of_str rows = Ok results →
  length results = length rows.
Proof.
  intros (new & -> & H)%classify_rows_inv. symmetry. by eapply Forall2_length.
Qed.

End BatchMore.

Lemma classify_triangle_label a b c :
  ∃ l : Label, classify_triangle a b c = Ok (label_str l).
Proof.
  destruct (list_sort_3_shape flt a b c) as (x & y & z & E & _).
  eexists. by apply classify_triangle_eq.
Qed.

(** Rows that hold an identifier and three sides [float] can read make the
    batch return: the classifier raises nothing. *)
Lemma classify_batch_succeeds float_of_str rows :
  Forall (λ row, is_Some (row !! "case_id") ∧
                 ∃ sides, row_sides float_of_str row = Ok sides) rows →
  ∃ results, classify_batch float_of_str rows = Ok results.
Proof.
  intros Hwf. rewrite classify_batch_eq_mapM.
  induction Hwf as [|row rows ([id Hid] & [[a b] c] & Hs) _ [rs IH]].
  - by exists [].
  - destruct (classify_triangle_label a b c) as [l Hl].
    exists ((id, label_str l) :: rs). simpl. rewrite IH.
    assert (row_entry float_of_str row = Ok (id, label_str l)) as ->;
      [|done].
    apply row_entry_labelled. exists a, b, c.
    repeat split; try done. by apply getitem_Ok.
Qed.

(** X11. [classify_batch] returns a list exactly when that list holds, row
    for row and in the order of the rows, the identifier of the row and the
    label of its three sides. *)
Theorem classify_batch_returns float_of_str rows results :
  classify_batch float_of_str rows = Ok results ↔
  Forall2 (row_labelled float_of_str) rows results.
Proof.
  rewrite classify_batch_eq_mapM. revert results.
  induction rows as [|row rows IH]; intros results; simpl.
  - split; [by intros [= <-]|by intros ->%Forall2_nil_inv_l].
  - split.
    + intros (r & Hr & H)%bind_Ok. apply bind_Ok in H as (rs & Hrs & [= <-]).
      constructor; [by apply row_entry_labelled|by apply IH].
    + intros (r & rs & Hr & Hrs & ->)%Forall2_cons_inv_l.
      apply row_entry_labelled in Hr. apply IH in Hrs. by rewrite Hr, Hrs.
Qed.

(** X12. On rows that each hold an identifier and three sides [float] can
    read, [classify_batch] returns: one pair per row, with the identifiers of
    the rows in their order, and every label one of the six. *)
Theorem classify_batch_well_formed float_of_str rows :
  Forall (λ row, is_Some (row !! "case_id") ∧
                 ∃ sides, row_sides float_of_str row = Ok sides) rows →
  ∃ results,
    classify_batch float_of_str rows = Ok results ∧
    length results = length rows ∧
    Forall2 (λ row r, row !! "case_id" = Some r.1) rows results ∧
    Forall (λ r, ∃ l : Label, r.2 = label_str l) results.
Proof.
  intros [results Hres]%classify_batch_succeeds.
  exists results. split; [done|].
  split; [by eapply classify_batch_length|].
  apply classify_rows_inv in Hres as (new & -> & Hnew). simpl. split.
  - eapply Forall2_impl; [done|]. intros row r (a & b & c & Hid & _).
    by apply getitem_Ok.
  - eapply Forall2_Forall_r; [done|]. apply Forall_forall. intros row _ r.
    intros (a & b & c & _ & _ & Hl).
    destruct (classify_triangle_label a b c) as [l Hl']. exists l. congruence.
Qed.

Lemma classify_batch_well_formed_witness :
  Forall (λ row, is_Some (row !! "case_id") ∧
                 ∃ sides, row_sides float_of_digits row = Ok sides)
    [row_345 "P5"; row_234 "P6"] ∧
  ∃ results,
    classify_batch float_of_digits [row_345 "P5"; row_234 "P6"]
      = Ok results ∧
    length results = length [row_345 "P5"; row_234 "P6"] ∧
    Forall2 (λ row r, row !! "case_id" = Some r.1)
      [row_345 "P5"; row_234 "P6"] results ∧
    Forall (λ r, ∃ l : Label, r.2 = label_str l) results.
Proof.
  assert (Forall (λ row, is_Some (row !! "case_id") ∧
                         ∃ sides, row_sides float_of_digits row = Ok sides)
            [row_345 "P5"; row_234 "P6"]) as Hwf.
  { repeat constructor; eexists; vm_compute; reflexivity. }
  split; [exact Hwf|].
  exact (classify_batch_well_formed float_of_digits _ Hwf).
Defined.

(** X13. [classify_batch] stops at the first row it cannot process and
    raises that row's exception; the rows after it play no part, and the
    pairs gathered so far are lost. *)
Theorem classify_batch_first_error float_of_str good bad rest results e :
  classify_batch float_of_str good = Ok results →
  row_entry float_of_str bad = Raise e →
  classify_batch float_of_str (good ++ bad :: rest) = Raise e.
Proof.
  rewrite !classify_batch_eq_mapM, mapM_result_app.
  intros -> Hbad. simpl. by rewrite Hbad.
Qed.

Lemma classify_batch_first_error_witness :
  classify_batch float_of_digits [row_345 "P5"]
    = Ok [("P5", RIGHT_SCALENE)] ∧
  row_entry float_of_digits {["case_id" := "P7"; "a" := "3"]}
    = Raise (KeyError "b") ∧
  classify_batch float_of_digits
    ([row_345 "P5"] ++ {["case_id" := "P7"; "a" := "3"]} :: [row_234 "P6"])
    = Raise (KeyError "b").
Proof.
  assert (classify_batch float_of_digits [row_345 "P5"]
            = Ok [("P5", RIGHT_SCALENE)]) as H by (vm_compute; reflexivity).
  assert (row_entry float_of_digits {["case_id" := "P7"; "a" := "3"]}
            = Raise (KeyError "b")) as Hbad by (vm_compute; reflexivity).
  split; [exact H|]. split; [exact Hbad|].
  exact (classify_batch_first_error float_of_digits _ _ [row_234 "P6"] _ _
           H Hbad).
Defined.

(** X14. Within a row the program reads [case_id], then each side in turn,
    converting it as soon as it is read.  So a row without identifier raises
    [KeyError] for ["case_id"] whatever its sides are, and a row whose side
    [a] is no number raises [ValueError] even when side [b] is missing. *)
Theorem classify_batch_error_order float_of_str good row rest results :
  classify_batch float_of_str good = Ok results →
  (row !! "case_id" = None →
   classify_batch float_of_str (good ++ row :: rest)
     = Raise (KeyError "case_id")) ∧
  (is_Some (row !! "case_id") → row !! "a" = None →
   classify_batch float_of_str (good ++ row :: rest)
     = Raise (KeyError "a")) ∧
  (∀ sa, is_Some (row !! "case_id") → row !! "a" = Some sa →
         float_of_str sa = None →
         classify_batch float_of_str (good ++ row :: rest)
           = Raise ValueError).
Proof.
  intros H. repeat split.
  - intros Hid. apply (classify_batch_stops _ _ _ _ _ _ H).
    unfold row_entry, getitem. by rewrite Hid.
  - intros [id Hid] Ha. apply (classify_batch_stops _ _ _ _ _ _ H).
    unfold row_entry, getitem. by rewrite Hid, Ha.
  - intros sa [id Hid] Ha Hsa. apply (classify_batch_stops _ _ _ _ _ _ H).
    unfold row_entry, getitem, to_float. rewrite Hid, Ha. simpl.
    by rewrite Hsa.
Qed.

Lemma classify_batch_error_order_witness :
  classify_batch float_of_digits [row_345 "P5"]
    = Ok [("P5", RIGHT_SCALENE)] ∧
  is_Some (({["case_id" := "P7"; "a" := "x"]} : gmap string string)
             !! "case_id") ∧
  ({["case_id" := "P7"; "a" := "x"]} : gmap string string) !! "a"
    = Some "x" ∧
  float_of_digits "x" = None ∧
  classify_batch float_of_digits
    ([row_345 "P5"] ++ {["case_id" := "P7"; "a" := "x"]} :: [row_234 "P6"])
    = Raise ValueError.
Proof.
  assert (classify_batch float_of_digits [row_345 "P5"]
            = Ok [("P5", RIGHT_SCALENE)]) as H by (vm_compute; reflexivity).
  assert (is_Some (({["case_id" := "P7"; "a" := "x"]} : gmap string string)
                     !! "case_id")) as Hid by (eexists; reflexivity).
  split; [exact H|]. split; [exact Hid|]. do 2 (split; [reflexivity|]).
  exact (proj2 (proj2 (classify_batch_error_order float_of_digits _
                         {["case_id" := "P7"; "a" := "x"]}
                         [row_234 "P6"] _ H))
           "x" Hid eq_refl eq_refl).
Defined.

(** X15. Classifying two batches one after the other is classifying their
    concatenation: the results follow one another, and the first exception
    is that of the whole. *)
Theorem classify_batch_app float_of_str rows1 rows2 :
  classify_batch float_of_str (rows1 ++ rows2)
    = results1 ← classify_batch float_of_str rows1;
      results2 ← classify_batch float_of_str rows2;
      mret (results1 ++ results2).
Proof. rewrite !classify_batch_eq_mapM. apply mapM_result_app. Qed.

(** ** [main]: the whole run *)

Section Main.
Variable float_of_str : string → option float.
Implicit Types rows expected_rows : list (gmap string string).

(** The outcome of [main] once both tables are in. *)
Lemma main_Ok rows expected_rows out :
  main float_of_str rows expected_rows = Ok out ↔
  ∃ expected results,
    load_expected expected_rows = Ok expected ∧
    classify_batch float_of_str rows = Ok results ∧
    out = let bad := filter (λ r, ¬ agrees expected r) results in
          {| actual_rows := write_actual results;
             report := write_report (length results) (length bad)
                         (line_of expected <$> bad);
             printed :=
               ("Ran " +:+ pretty (length results)
                  +:+ " test cases; failures: " +:+ pretty (length bad))
               :: match line_of expected <$> bad with
                  | [] => ["All basis paths passed."]
                  | _ => "Mismatches:"
                         :: ((λ line, "  " +:+ line)
                               <$> (line_of expected <$> bad))
                  end |}.
Proof.
  unfold main. split.
  - intros (expected & He & H)%bind_Ok.
    apply bind_Ok in H as (results & Hr & H).
    rewrite compare_eq in H. injection H as <-. by exists expected, results.
  - intros (expected & results & -> & -> & ->).
    cbv beta iota delta [mbind result_bind]. by rewrite compare_eq.
Qed.

End Main.

(** X16. [main] runs to its end exactly when every row of the table of
    expected labels has both columns and every input row holds an identifier
    and three sides [float] can read. *)
Theorem main_returns float_of_str rows expected_rows :
  (∃ out, main float_of_str rows expected_rows = Ok out) ↔
  Forall (λ row, is_Some (row !! "expected") ∧ is_Some (row !! "case_id"))
    expected_rows ∧
  Forall (λ row, is_Some (row !! "case_id") ∧
                 ∃ sides, row_sides float_of_str row = Ok sides) rows.
Proof.
  rewrite <- (load_expected_rows_Ok expected_rows ∅). split.
  - intros [out (expected & results & He & Hr & _)%main_Ok].
    split; [by exists expected|].
    apply classify_rows_inv in Hr as (new & _ & Hnew).
    eapply Forall2_Forall_l; [done|]. apply Forall_forall. intros r _ row.
    intros (a & b & c & Hid%getitem_Ok & Hs & _). split; by eexists.
  - intros [[expected He] [results Hr]%classify_batch_succeeds].
    eexists. apply main_Ok. by exists expected, results.
Qed.

(** X17. What a finished run shows adds up: the file of actual labels has
    one row per input row under its header; the report and the summary line
    give the number of input rows as the total; both give the same number of
    failures, which is at most the total; and the report and the printed
    output list exactly that many mismatches, the report having no section
    of details when there is none. *)
Theorem main_counts float_of_str rows expected_rows out :
  main float_of_str rows expected_rows = Ok out →
  ∃ failures : nat,
    (failures ≤ length rows)%nat ∧
    length (actual_rows out) = S (length rows) ∧
    report out !! 0%nat
      = Some ("Total cases: " +:+ pretty (length rows) +:+ NL) ∧
    report out !! 1%nat = Some ("Failures: " +:+ pretty failures +:+ NL) ∧
    printed out !! 0%nat
      = Some ("Ran " +:+ pretty (length rows) +:+ " test cases; failures: "
                +:+ pretty failures) ∧
    length (report out)
      = (if decide (failures = 0%nat) then 2 else 3 + failures)%nat ∧
    length (printed out) = (2 + failures)%nat.
Proof.
  intros (expected & results & He & Hr & ->)%main_Ok.
  apply classify_batch_length in Hr. rewrite <- Hr.
  set (bad := filter (λ r, ¬ agrees expected r) results).
  exists (length bad). simpl.
  split; [apply length_filter|].
  split; [unfold write_actual; simpl; by rewrite length_fmap|].
  split; [done|]. split; [done|]. split; [done|].
  destruct bad as [|r bad]; simpl; [done|].
  by rewrite !length_fmap.
Qed.

Lemma main_counts_witness :
  ∃ out,
    main float_of_digits [row_345 "P5"; row_234 "P6"]
      [expected_row ("P5", RIGHT_SCALENE); expected_row ("P6", ISOSCELES)]
      = Ok out ∧
    ∃ failures : nat,
      (failures ≤ length [row_345 "P5"; row_234 "P6"])%nat ∧
      length (actual_rows out) = S (length [row_345 "P5"; row_234 "P6"]) ∧
      report out !! 0%nat
        = Some ("Total cases: "
                  +:+ pretty (length [row_345 "P5"; row_234 "P6"]) +:+ NL) ∧
      report out !! 1%nat = Some ("Failures: " +:+ pretty failures +:+ NL) ∧
      printed out !! 0%nat
        = Some ("Ran " +:+ pretty (length [row_345 "P5"; row_234 "P6"])
                  +:+ " test cases; failures: " +:+ pretty failures) ∧
      length (report out)
        = (if decide (failures = 0%nat) then 2 else 3 + failures)%nat ∧
      length (printed out) = (2 + failures)%nat.
Proof.
  eexists. split; [vm_compute; reflexivity|].
  apply (main_counts float_of_digits [row_345 "P5"; row_234 "P6"]
           [expected_row ("P5", RIGHT_SCALENE);
            expected_row ("P6", ISOSCELES)]).
  vm_compute; reflexivity.
Defined.

(** X18. A finished run prints [All basis paths passed.] exactly when every
    label is the one [expected.get(case_id, "<missing>")] gives for its
    case. *)
Theorem main_all_passed
    float_of_str rows expected_rows out expected results :
  main float_of_str rows expected_rows = Ok out →
  load_expected expected_rows = Ok expected →
  classify_batch float_of_str rows = Ok results →
  printed out !! 1%nat = Some "All basis paths passed." ↔
  Forall (agrees expected) results.
Proof.
  intros (expected' & results' & He & Hr & ->)%main_Ok He' Hr'.
  rewrite He in He'. rewrite Hr in Hr'.
  injection He' as ->. injection Hr' as ->. simpl.
  rewrite <- no_disagreement.
  destruct (filter _ results) as [|r bad]; simpl; [done|].
  split; intros [=].
Qed.

Lemma main_all_passed_witness :
  ∃ out,
    main float_of_digits [row_345 "P5"; row_234 "P6"]
      [expected_row ("P5", RIGHT_SCALENE); expected_row ("P6", SCALENE)]
      = Ok out ∧
    load_expected
      [expected_row ("P5", RIGHT_SCALENE); expected_row ("P6", SCALENE)]
      = Ok {["P5" := RIGHT_SCALENE; "P6" := SCALENE]} ∧
    classify_batch float_of_digits [row_345 "P5"; row_234 "P6"]
      = Ok [("P5", RIGHT_SCALENE); ("P6", SCALENE)] ∧
    (printed out !! 1%nat = Some "All basis paths passed." ↔
     Forall (agrees {["P5" := RIGHT_SCALENE; "P6" := SCALENE]})
       [("P5", RIGHT_SCALENE); ("P6", SCALENE)]).
Proof.
  eexists. split; [vm_compute; reflexivity|].
  assert (load_expected
            [expected_row ("P5", RIGHT_SCALENE); expected_row ("P6", SCALENE)]
            = Ok {["P5" := RIGHT_SCALENE; "P6" := SCALENE]}) as He
    by (vm_compute; reflexivity).
  assert (classify_batch float_of_digits [row_345 "P5"; row_234 "P6"]
            = Ok [("P5", RIGHT_SCALENE); ("P6", SCALENE)]) as Hr
    by (vm_compute; reflexivity).
  split; [exact He|]. split; [exact Hr|].
  apply (main_all_passed float_of_digits [row_345 "P5"; row_234 "P6"]
           [expected_row ("P5", RIGHT_SCALENE); expected_row ("P6", SCALENE)]
           _ _ _);
    [vm_compute; reflexivity|exact He|exact Hr].
Defined.

(** X25. A finished run reports every input row whose case the table of
    expected labels does not name: the printed output and the report both
    hold its mismatch line, with [<missing>] as the expected label. *)
Theorem main_reports_missing
    float_of_str rows expected_rows out row case_id :
  main float_of_str rows expected_rows = Ok out →
  row ∈ rows →
  row !! "case_id" = Some case_id →
  Forall (λ erow, erow !! "case_id" ≠ Some case_id) expected_rows →
  ∃ label,
    ("  " +:+ case_id +:+ ": expected <missing>, got " +:+ label)
      ∈ printed out ∧
    ("- " +:+ (case_id +:+ ": expected <missing>, got " +:+ label) +:+ NL)
      ∈ report out.
Proof.
  intros (expected & results & He & Hr & ->)%main_Ok Hrow Hid Hno.
  assert (expected !! case_id = None) as Hnone.
  { rewrite (load_expected_rows_lookup _ _ _ case_id He Hno).
    apply lookup_empty. }
  apply classify_rows_inv in Hr as (new & -> & Hnew). simpl in *.
  apply list_elem_of_lookup in Hrow as [i Hi].
  destruct (Forall2_lookup_l _ _ _ _ _ Hnew Hi)
    as ([id label] & Hri & (a & b & c & Hid' & _ & Hl)).
  simpl in Hid', Hl. apply getitem_Ok in Hid'.
  rewrite Hid in Hid'. injection Hid' as <-.
  set (bad := filter (λ r, ¬ agrees expected r) new).
  assert ((case_id, label) ∈ bad) as Hbad.
  { apply list_elem_of_filter. split; [|by eapply list_elem_of_lookup_2].
    unfold agrees. simpl. rewrite Hnone. simpl.
    by apply (classify_triangle_not_missing a b c). }
  assert (line_of expected (case_id, label) ∈ line_of expected <$> bad)
    as Hline by (by apply list_elem_of_fmap_2).
  unfold line_of in Hline at 1. simpl in Hline. rewrite Hnone in Hline.
  exists label. destruct (line_of expected <$> bad) as [|l ls] eqn:E.
  { by apply elem_of_nil in Hline. }
  split.
  - right. right.
    apply (list_elem_of_fmap_2 (λ line, "  " +:+ line) _ _ Hline).
  - unfold write_report. do 3 right.
    apply (list_elem_of_fmap_2 (λ line, "- " +:+ line +:+ NL) _ _ Hline).
Qed.

Lemma main_reports_missing_witness :
  ∃ out,
    main float_of_digits [row_345 "P5"; row_234 "P6"]
      [expected_row ("P5", RIGHT_SCALENE)] = Ok out ∧
    row_234 "P6" ∈ [row_345 "P5"; row_234 "P6"] ∧
    row_234 "P6" !! "case_id" = Some "P6" ∧
    Forall (λ erow, erow !! "case_id" ≠ Some "P6")
      [expected_row ("P5", RIGHT_SCALENE)] ∧
    ∃ label,
      ("  " +:+ "P6" +:+ ": expected <missing>, got " +:+ label)
        ∈ printed out ∧
      ("- " +:+ ("P6" +:+ ": expected <missing>, got " +:+ label) +:+ NL)
        ∈ report out.
Proof.
  assert (row_234 "P6" ∈ [row_345 "P5"; row_234 "P6"]) as Hrow
    by (right; left).
  assert (Forall (λ erow, erow !! "case_id" ≠ Some "P6")
            [expected_row ("P5", RIGHT_SCALENE)]) as Hno
    by (repeat constructor; discriminate).
  eexists. split; [vm_compute; reflexivity|].
  split; [exact Hrow|]. split; [reflexivity|]. split; [exact Hno|].
  apply (main_reports_missing float_of_digits [row_345 "P5"; row_234 "P6"]
           [expected_row ("P5", RIGHT_SCALENE)] _ (row_234 "P6") "P6");
    [vm_compute; reflexivity|exact Hrow|reflexivity|exact Hno].
Defined.

(** ** More on the classifier *)

Lemma fexp_eq k : fexp prec emax k = Z.max (k - 53) (-1074).
Proof. reflexivity. Qed.

Lemma bounded_inv m e :
  bounded prec emax m e = true →
  Z.max (Zpos (digits2_pos m) + e - 53) (-1074) = e ∧ e ≤ 971.
Proof.
  unfold bounded, canonical_mantissa. rewrite andb_true_iff, fexp_eq.
  intros [H1 H2]. apply Z.eqb_eq in H1. apply Z.leb_le in H2. 
  change (emax - prec) with 971 in H2. done.
Qed.

Lemma fadd_double m e :
  bounded prec emax m e = true →
  fadd (S754_finite false m e) (S754_finite false m e) =
    if Zpos (digits2_pos m) =? 53
    then (if e + 1 <=? 971 then S754_finite false m (e + 1) else inf)
    else S754_finite false m~0 e.
Proof.
  intros [Hc He]%bounded_inv.
  unfold fadd, SFadd, shl_align. rewrite Z.min_id, Z.sub_diag. simpl fst.
  change (cond_Zopp false (Zpos m) + cond_Zopp false (Zpos m)) with (Zpos (m + m)).
  rewrite Pos.add_diag.
  unfold binary_normalize, binary_round.
  change (digits2_pos m~0) with (Pos.succ (digits2_pos m)).
  rewrite Pos2Z.inj_succ, fexp_eq.
  set (d := Z.pos (digits2_pos m)) in *.
  assert (Zdigits2 (Z.pos m~0) = Z.succ d) as Hd2
    by apply (Pos2Z.inj_succ (digits2_pos m)).
  destruct (Z.eqb_spec d 53) as [Hd|Hd].
  - replace (Z.max (Z.succ d + e - 53) (-1074)) with (e + 1) by lia.
    unfold shl_align. replace (e + 1 - e) with 1 by lia.
    unfold binary_round_aux, shr_fexp.
    rewrite Hd2, fexp_eq.
    replace (Z.max (Z.succ d + e - 53) (-1074) - e) with 1 by lia.
    simpl shr.
    lazy beta iota zeta delta [shr_m loc_of_shr_record round_nearest_even].
    change (Zdigits2 (Z.pos m)) with d. rewrite fexp_eq.
    replace (Z.max (d + (e + 1) - 53) (-1074) - (e + 1)) with 0 by lia.
    simpl. change (emax - prec) with 971. done.
  - assert (d < 53) by (subst d; lia).
    replace (Z.max (Z.succ d + e - 53) (-1074)) with e by lia.
    unfold shl_align. rewrite Z.sub_diag.
    unfold binary_round_aux, shr_fexp.
    rewrite Hd2, fexp_eq.
    replace (Z.max (Z.succ d + e - 53) (-1074) - e) with 0 by lia.
    simpl shr.
    lazy beta iota zeta delta [shr_m loc_of_shr_record round_nearest_even].
    rewrite Hd2, fexp_eq.
    replace (Z.max (Z.succ d + e - 53) (-1074) - e) with 0 by lia.
    simpl. change (emax - prec) with 971.
    destruct (Z.leb_spec e 971); [done|lia].
Qed.

Lemma flt_double x : finite_valid x → flt x (fadd x x) = true.
Proof.
  intros [(m & e & ->) Hv]. simpl in Hv. rewrite fadd_double by done.
  unfold flt, SFltb.
  destruct (_ =? 53); [destruct (_ <=? 971)|]; try done.
  - cbv beta iota delta [SFcompare].
    by rewrite (proj2 (Z.compare_lt_iff e (e + 1))) by lia.
  - cbv beta iota delta [SFcompare]. rewrite Z.compare_refl.
    change (Pos.compare_cont Eq m m~0) with (m ?= m~0)%positive.
    by rewrite (proj2 (Pos.compare_lt_iff m m~0)) by lia.
Qed.

(** No sum of positive floats is NaN. *)
Lemma shr_1_nonneg mrs : 0 ≤ shr_m mrs → 0 ≤ shr_m (shr_1 mrs).
Proof. destruct mrs as [[|[p|p|]|p] r s]; simpl; lia. Qed.

Lemma iter_shr_1_nonneg p mrs :
  0 ≤ shr_m mrs → 0 ≤ shr_m (SpecFloat.iter_pos shr_1 p mrs).
Proof.
  revert mrs. induction p as [p IH|p IH|]; intros mrs H; simpl;
    auto using shr_1_nonneg.
Qed.

Lemma shr_fexp_nonneg m e l :
  0 ≤ m → 0 ≤ shr_m (shr_fexp prec emax m e l).1.
Proof.
  intros H. unfold shr_fexp, shr.
  assert (0 ≤ shr_m (shr_record_of_loc m l)) by (by destruct l as [|[]]).
  destruct (_ - e); simpl; auto using iter_shr_1_nonneg.
Qed.

Lemma binary_round_aux_not_nan s m e l :
  0 ≤ m → is_nan (binary_round_aux prec emax s m e l) = false.
Proof.
  intros H. unfold binary_round_aux.
  pose proof (shr_fexp_nonneg m e l H) as H1.
  destruct (shr_fexp prec emax m e l) as [mrs' e']. simpl in H1.
  set (m' := round_nearest_even _ _).
  assert (0 ≤ m') as H2.
  { subst m'. unfold round_nearest_even.
    destruct (loc_of_shr_record mrs') as [|[]]; try done; [|lia].
    destruct (Z.even _); lia. }
  pose proof (shr_fexp_nonneg m' e' loc_Exact H2) as H3.
  destruct (shr_fexp prec emax m' e' loc_Exact) as [mrs'' e'']. simpl in H3.
  destruct (shr_m mrs'') as [|p|p]; try done. by destruct (_ <=? _).
Qed.

Lemma fadd_positive_not_nan x y :
  positive x → positive y → is_nan (fadd x y) = false.
Proof.
  intros [->|(mx & ex & ->)]%positive_inv [->|(my & ey & ->)]%positive_inv;
    try done.
  unfold fadd, SFadd, binary_normalize, binary_round. simpl cond_Zopp.
  destruct (shl_align mx _ _) as [m1 e1], (shl_align my _ _) as [m2 e2].
  simpl fst. change (Z.pos m1 + Z.pos m2) with (Z.pos (m1 + m2)).
  cbv beta iota. destruct (shl_align (m1 + m2) _ _) as [mz ez].
  by apply binary_round_aux_not_nan.
Qed.

Lemma fle_inf_r x : is_nan x = false → fle x inf = true.
Proof. by destruct x as [[]|[]| |[] m e]. Qed.

Lemma fle_inf_l x : positive x → fle inf x = true → x = inf.
Proof. intros [->|(m & e & ->)]%positive_inv; [done|discriminate]. Qed.

Lemma flt_irrefl x : flt x x = false.
Proof.
  destruct (flt x x) eqn:E; [|done].
  pose proof (flt_fle _ _ E). pose proof (flt_not_fle _ _ E). congruence.
Qed.

Lemma label_str_inj l l' : label_str l = label_str l' → l = l'.
Proof. by destruct l, l'. Qed.

(** How the program arrives at each label. *)
Lemma classify_triangle_cases a b c :
  ∃ x y z, sorted [a; b; c] = [x; y; z] ∧ [x; y; z] ≡ₚ [a; b; c] ∧
    classify_triangle a b c = Ok (label_str (decision_sequence a b c x y z)).
Proof.
  destruct (list_sort_3_shape flt a b c) as (x & y & z & E & Hp).
  exists x, y, z. repeat split; try done. by apply classify_triangle_eq.
Qed.

Lemma classify_triangle_label_inv a b c x y z l :
  sorted [a; b; c] = [x; y; z] →
  classify_triangle a b c = Ok (label_str l) ↔
  decision_sequence a b c x y z = l.
Proof.
  intros E. rewrite (classify_triangle_eq a b c x y z E). split.
  - intros [= H]. by apply label_str_inj.
  - by intros ->.
Qed.

(** The tests passed on the way to each label. *)
Lemma decision_sequence_tests a b c x y z :
  let g := fle a zero || fle b zero || fle c zero in
  let t := fle (fadd x y) z in
  (decision_sequence a b c x y z = InvalidNonpositive ↔ g = true) ∧
  (decision_sequence a b c x y z = InvalidTriangleInequality ↔
     g = false ∧ t = true) ∧
  (decision_sequence a b c x y z = Equilateral ↔
     g = false ∧ t = false ∧ all_equal a b c = true) ∧
  (decision_sequence a b c x y z = RightScalene ↔
     g = false ∧ t = false ∧ all_equal a b c = false ∧
     two_equal a b c = false ∧ pythagorean x y z = true).
Proof.
  unfold decision_sequence. simpl.
  destruct (fle a zero || fle b zero || fle c zero), (fle (fadd x y) z),
    (all_equal a b c), (two_equal a b c), (pythagorean x y z);
    repeat split; intros; try discriminate; intuition discriminate.
Qed.

(** Sides that pass the first guard and are not NaN are positive, and the
    program sorts them. *)
Lemma guard_false_sorted a b c x y z :
  fle a zero || fle b zero || fle c zero = false →
  is_nan a || is_nan b || is_nan c = false →
  sorted [a; b; c] = [x; y; z] →
  positive a ∧ positive b ∧ positive c ∧ sorted_sides a b c x y z.
Proof.
  intros G N E.
  apply orb_false_iff in G as [[Ga Gb]%orb_false_iff Gc].
  apply orb_false_iff in N as [[Na Nb]%orb_false_iff Nc].
  destruct (sorted_sides_exist a b c) as (x' & y' & z' & E' & Hs); try done.
  rewrite E in E'. injection E' as <- <- <-.
  auto using real_positive.
Qed.

Lemma nan_sides a b c :
  is_nan a || is_nan b || is_nan c = true ↔
  is_nan a = true ∨ is_nan b = true ∨ is_nan c = true.
Proof. rewrite !orb_true_iff. tauto. Qed.

(** X19. INVALID_NONPOSITIVE is returned for the triples with a side [≤ 0]
    and for no other: the label tells that some side is zero or negative. *)
Theorem classify_triangle_nonpositive_iff a b c :
  classify_triangle a b c = Ok INVALID_NONPOSITIVE ↔
  fle a zero = true ∨ fle b zero = true ∨ fle c zero = true.
Proof.
  destruct (classify_triangle_cases a b c) as (x & y & z & E & _ & _).
  rewrite (classify_triangle_label_inv a b c x y z InvalidNonpositive E).
  rewrite (proj1 (decision_sequence_tests a b c x y z)).
  rewrite !orb_true_iff. tauto.
Qed.

(** X20. A triple with a NaN side and no side [≤ 0] is never rejected as
    invalid: it is labelled ISOSCELES when two of its sides are equal and
    SCALENE otherwise. *)
Theorem classify_triangle_nan a b c :
  is_nan a = true ∨ is_nan b = true ∨ is_nan c = true →
  fle a zero = false → fle b zero = false → fle c zero = false →
  classify_triangle a b c
    = Ok (if two_equal a b c then ISOSCELES else SCALENE).
Proof.
  intros N Ga Gb Gc.
  destruct (classify_triangle_cases a b c) as (x & y & z & E & Hp & ->).
  unfold decision_sequence. rewrite Ga, Gb, Gc. simpl.
  destruct (nan_tests x y z) as [-> ->];
    [by apply (nan_perm a b c); [symmetry|]|].
  rewrite (nan_all_equal a b c) by done.
  by destruct (two_equal a b c).
Qed.

Lemma classify_triangle_nan_witness :
  (is_nan (of_Z 3) = true ∨ is_nan nan = true ∨ is_nan (of_Z 4) = true) ∧
  fle (of_Z 3) zero = false ∧ fle nan zero = false ∧
  fle (of_Z 4) zero = false ∧
  classify_triangle (of_Z 3) nan (of_Z 4)
    = Ok (if two_equal (of_Z 3) nan (of_Z 4) then ISOSCELES else SCALENE).
Proof.
  assert (is_nan (of_Z 3) = true ∨ is_nan nan = true ∨
          is_nan (of_Z 4) = true) as N by (right; left; reflexivity).
  split; [exact N|]. do 3 (split; [reflexivity|]).
  exact (classify_triangle_nan (of_Z 3) nan (of_Z 4) N
           eq_refl eq_refl eq_refl).
Defined.

(** X21. Positive sides one of which is infinite are labelled
    INVALID_TRIANGLE_INEQUALITY: no sum exceeds [inf]. *)
Theorem classify_triangle_infinite a b c :
  positive a → positive b → positive c →
  a = inf ∨ b = inf ∨ c = inf →
  classify_triangle a b c = Ok INVALID_TRIANGLE_INEQUALITY.
Proof.
  intros Ha Hb Hc Hinf.
  destruct (sorted_sides_exist a b c) as (x & y & z & E & Hp & Hxy & Hyz);
    auto using positive_not_nan.
  assert (Forall positive [x; y; z]) as Hall
    by (rewrite Hp; repeat constructor; done).
  rewrite !Forall_cons in Hall. destruct Hall as (Hx & Hy & Hz & _).
  assert (x = inf ∨ y = inf ∨ z = inf) as Hinf'.
  { assert (Hp' := Hp). symmetry in Hp'. perm3 Hp'; tauto. }
  assert (z = inf) as ->.
  { destruct Hinf' as [Hi|[Hi|Hi]]; subst; [|by apply fle_inf_l|done].
    assert (y = inf) by (by apply fle_inf_l). subst. by apply fle_inf_l. }
  apply (classify_triangle_label_inv a b c x y inf InvalidTriangleInequality E).
  apply decision_sequence_tests. split; [by apply guard_positive|].
  by apply fle_inf_r, fadd_positive_not_nan.
Qed.

Lemma classify_triangle_infinite_witness :
  positive (of_Z 3) ∧ positive inf ∧ positive (of_Z 4) ∧
  (of_Z 3 = inf ∨ inf = inf ∨ of_Z 4 = inf) ∧
  classify_triangle (of_Z 3) inf (of_Z 4) = Ok INVALID_TRIANGLE_INEQUALITY.
Proof.
  assert (of_Z 3 = inf ∨ inf = inf ∨ of_Z 4 = inf) as Hinf
    by (right; left; reflexivity).
  do 3 (split; [reflexivity|]). split; [exact Hinf|].
  exact (classify_triangle_infinite (of_Z 3) inf (of_Z 4)
           eq_refl eq_refl eq_refl Hinf).
Defined.

(** X22. For a first side that is a binary64 float, EQUILATERAL is returned
    exactly when the three sides are one and the same positive finite float;
    three infinite sides are not equilateral. *)
Theorem classify_triangle_equilateral_iff (a b c : float) :
  valid_binary prec emax a = true →
  classify_triangle a b c = Ok EQUILATERAL ↔
  (∃ m e, a = S754_finite false m e) ∧ a = b ∧ b = c.
Proof.
  intros Hv.
  destruct (classify_triangle_cases a b c) as (x & y & z & E & Hp & _).
  rewrite (classify_triangle_label_inv a b c x y z Equilateral E).
  rewrite (proj1 (proj2 (proj2 (decision_sequence_tests a b c x y z)))).
  split.
  - intros (G & T & Q).
    destruct (is_nan a || is_nan b || is_nan c) eqn:N.
    { apply nan_sides in N. by rewrite nan_all_equal in Q. }
    destruct (guard_false_sorted a b c x y z G N E) as (Ha & Hb & Hc & Hs).
    apply all_equal_positive in Q as [<- <-]; try done.
    split; [|done].
    assert (sorted [a; a; a] = [a; a; a]) as E'
      by (unfold sorted; by rewrite list_sort_3, flt_irrefl).
    rewrite E in E'. injection E' as -> -> ->.
    apply positive_inv in Ha as [->|?]; done.
  - intros ((m & e & Hfin) & <- & <-).
    assert (positive a) as Ha by (by rewrite Hfin).
    assert (sorted [a; a; a] = [a; a; a]) as E'
      by (unfold sorted; by rewrite list_sort_3, flt_irrefl).
    rewrite E in E'. injection E' as -> -> ->.
    split; [by apply guard_positive|]. split.
    + apply flt_not_fle, flt_double. split; [eauto|done].
    + by apply all_equal_positive.
Qed.

Lemma classify_triangle_equilateral_iff_witness :
  valid_binary prec emax (of_Z 2) = true ∧
  (classify_triangle (of_Z 2) (of_Z 2) (of_Z 2) = Ok EQUILATERAL ↔
   (∃ m e, of_Z 2 = S754_finite false m e) ∧
   of_Z 2 = of_Z 2 ∧ of_Z 2 = of_Z 2).
Proof.
  split; [reflexivity|].
  exact (classify_triangle_equilateral_iff (of_Z 2) (of_Z 2) (of_Z 2)
           eq_refl).
Defined.

(** X23. INVALID_TRIANGLE_INEQUALITY is returned exactly for the positive
    sides whose two smallest sum, as rounded, to at most the largest; a NaN
    side never gets this label. *)
Theorem classify_triangle_inequality_iff a b c :
  classify_triangle a b c = Ok INVALID_TRIANGLE_INEQUALITY ↔
  positive a ∧ positive b ∧ positive c ∧
  ∃ x y z, sorted_sides a b c x y z ∧ fle (fadd x y) z = true.
Proof.
  destruct (classify_triangle_cases a b c) as (x & y & z & E & Hp & _).
  rewrite (classify_triangle_label_inv a b c x y z
             InvalidTriangleInequality E).
  rewrite (proj1 (proj2 (decision_sequence_tests a b c x y z))).
  split.
  - intros (G & T).
    destruct (is_nan a || is_nan b || is_nan c) eqn:N.
    { apply nan_sides in N.
      destruct (nan_tests x y z) as [T' _];
        [by apply (nan_perm a b c); [symmetry|]|congruence]. }
    destruct (guard_false_sorted a b c x y z G N E) as (Ha & Hb & Hc & Hs).
    eauto 10.
  - intros (Ha & Hb & Hc & x' & y' & z' & Hs & T).
    rewrite (sorted_sides_sorted a b c x' y' z') in E by done.
    injection E as <- <- <-. split; [by apply guard_positive|done].
Qed.

(** X24. RIGHT_SCALENE is returned exactly for positive, pairwise distinct
    sides that obey the strict triangle inequality and whose sorted
    arrangement passes the Pythagorean test. *)
Theorem classify_triangle_right_scalene_iff a b c :
  classify_triangle a b c = Ok RIGHT_SCALENE ↔
  positive a ∧ positive b ∧ positive c ∧ a ≠ b ∧ b ≠ c ∧ a ≠ c ∧
  ∃ x y z, sorted_sides a b c x y z ∧
    fle (fadd x y) z = false ∧ pythagorean x y z = true.
Proof.
  destruct (classify_triangle_cases a b c) as (x & y & z & E & Hp & _).
  rewrite (classify_triangle_label_inv a b c x y z RightScalene E).
  rewrite (proj2 (proj2 (proj2 (decision_sequence_tests a b c x y z)))).
  split.
  - intros (G & T & _ & Q & P).
    destruct (is_nan a || is_nan b || is_nan c) eqn:N.
    { apply nan_sides in N.
      destruct (nan_tests x y z) as [_ P'];
        [by apply (nan_perm a b c); [symmetry|]|congruence]. }
    destruct (guard_false_sorted a b c x y z G N E) as (Ha & Hb & Hc & Hs).
    unfold two_equal in Q.
    apply orb_false_iff in Q as [[Qab Qbc]%orb_false_iff Qac].
    split; [done|]. split; [done|]. split; [done|].
    split; [intros ->; by rewrite feq_refl_positive in Qab|].
    split; [intros ->; by rewrite feq_refl_positive in Qbc|].
    split; [intros ->; by rewrite feq_refl_positive in Qac|].
    by exists x, y, z.
  - intros (Ha & Hb & Hc & Hab & Hbc & Hac & x' & y' & z' & Hs & T & P).
    rewrite (sorted_sides_sorted a b c x' y' z') in E by done.
    injection E as <- <- <-. unfold all_equal, two_equal.
    rewrite !feq_false_positive by done.
    by rewrite guard_positive.
Qed.
